(** * Bad-channel detection (spikeinterface/preprocessing/remove_bad_channels.py)

    A shallow embedding of the bad-channel detector and the properties its
    specification states about it.

    Modelling conventions.
    - NumPy floats are exact rationals ([Q]); IEEE special values (nan, inf)
      are outside the model, and every statement that rests on a division
      exhibits the non-zero denominator it divides by.
    - Python exceptions are the [Err] branch of [result]; the call to the
      external chunk sampler, the start of each chunk's classification and
      warnings are events of a trace threaded through the monad [M].
    - Dictionaries are [gmap string pyval]; [dict.update] is a left-biased
      union, [dict.pop] a [delete].
    - The SciPy routines the source calls without defining (Welch PSD,
      Butterworth zero-phase high-pass, square root) and the chunk sampler
      of the core package are Section variables. *)

From stdpp Require Import gmap strings list fin_maps.
From Stdlib Require Import ZArith QArith Qround Qabs Sorted Lia.

Local Open Scope Z_scope.

(** ** Python values, exceptions, events *)

Inductive pyval : Type :=
  | PyNone
  | PyBool (b : bool)
  | PyInt (z : Z)
  | PyFloat (q : Q)
  | PyStr (s : string)
  | PyObj (name : string).

Inductive exn : Type :=
  | NameError (name : string)
  | TypeError (msg : string)
  | AttributeError (msg : string)
  | AssertionError
  | IndexError
  | KeyError (key : string)
  | ValueError (msg : string).

Inductive result (A : Type) : Type :=
  | Ok (a : A)
  | Err (e : exn).
Arguments Ok {A} a.
Arguments Err {A} e.

Inductive event : Type :=
  | EvSample (kwargs : gmap string pyval)
  | EvClassify (chunk_index : nat)
  | EvWarn (msg : string).

#[global] Instance result_ret : MRet result := fun A a => Ok a.
#[global] Instance result_bind : MBind result := fun A B f m =>
  match m with
  | Ok a => f a
  | Err e => Err e
  end.

(** State-and-error monad: the trace of events so far is threaded through. *)
Definition M (A : Type) : Type := list event -> result A * list event.

#[global] Instance M_ret : MRet M := fun A a tr => (Ok a, tr).
#[global] Instance M_bind : MBind M := fun A B f m tr =>
  match m tr with
  | (Ok a, tr') => f a tr'
  | (Err e, tr') => (Err e, tr')
  end.

Definition lift {A : Type} (r : result A) : M A := fun tr => (r, tr).
Definition emit (ev : event) : M unit := fun tr => (Ok tt, tr ++ [ev]).

Fixpoint mapM_indexed {A B : Type} (f : nat -> A -> M B) (i : nat) (l : list A)
  : M (list B) :=
  match l with
  | [] => mret []
  | a :: l' =>
      b ← f i a;
      bs ← mapM_indexed f (S i) l';
      mret (b :: bs)
  end.

(** Truth value testing, as [bool(v)]. *)
Definition truthy (v : pyval) : bool :=
  match v with
  | PyNone => false
  | PyBool b => b
  | PyInt z => negb (z =? 0)
  | PyFloat q => negb (Qeq_bool q 0)
  | PyStr s => negb (String.eqb s "")
  | PyObj _ => true
  end.

(** [a < b] on Python values: numbers compare, anything else is a TypeError. *)
Definition py_num (v : pyval) : option Q :=
  match v with
  | PyBool b => Some (if b then 1%Q else 0%Q)
  | PyInt z => Some (inject_Z z)
  | PyFloat q => Some q
  | _ => None
  end.

Definition Qltb (a b : Q) : bool := negb (Qle_bool b a).

Definition py_lt (a b : pyval) : result bool :=
  match py_num a, py_num b with
  | Some x, Some y => Ok (Qltb x y)
  | _, _ => Err (TypeError "'<' not supported between instances")
  end.

(** [int(q)]: truncation towards zero. *)
Definition py_int (q : Q) : Z :=
  if Qle_bool 0 q then Qfloor q else Qceiling q.

(** ** Name resolution in the module

    A name that a function body never assigns is looked up among the module
    globals, then among the builtins. *)

Definition module_globals : list string :=
  ["warnings"; "np"; "ChannelSliceRecording"; "define_function_from_class";
   "BasePreprocessor"; "get_random_data_chunks"; "scipy";
   "RemoveBadChannelsRecording"; "remove_bad_channels";
   "detect_bad_channels"; "handle_random_chunk_kwargs"; "handle_test_case";
   "detect_bad_channels_ibl"; "rms"; "detrend"; "channel_simiarlity_new";
   "channel_similarity"; "fxcor"; "nxcor"]%string.

Definition python_builtins : list string :=
  ["abs"; "all"; "any"; "ascii"; "bin"; "bool"; "breakpoint"; "bytearray";
   "bytes"; "callable"; "chr"; "classmethod"; "compile"; "complex";
   "delattr"; "dict"; "dir"; "divmod"; "enumerate"; "eval"; "exec";
   "filter"; "float"; "format"; "frozenset"; "getattr"; "globals";
   "hasattr"; "hash"; "help"; "hex"; "id"; "input"; "int"; "isinstance";
   "issubclass"; "iter"; "len"; "list"; "locals"; "map"; "max";
   "memoryview"; "min"; "next"; "object"; "oct"; "open"; "ord"; "pow";
   "print"; "property"; "range"; "repr"; "reversed"; "round"; "set";
   "setattr"; "slice"; "sorted"; "staticmethod"; "str"; "sum"; "super";
   "tuple"; "type"; "vars"; "zip"]%string.

Definition load_global (x : string) : result pyval :=
  if bool_decide (x ∈ module_globals) then Ok (PyObj x)
  else if bool_decide (x ∈ python_builtins) then Ok (PyObj x)
  else Err (NameError x).

(** ** The recording handle *)

Record recording : Type := {
  get_sampling_frequency : Q;
  get_num_channels : nat;
  get_num_segments : nat;
  get_channel_ids : list string
}.

(** ** Random-chunk keyword arguments *)

(** [key in d] where [d] may be [None]. *)
Definition py_in (key : string) (d : option (gmap string pyval)) : result bool :=
  match d with
  | None => Err (TypeError "argument of type 'NoneType' is not iterable")
  | Some m => Ok (bool_decide (is_Some (m !! key)))
  end.

(** [d[key]] where [d] may be [None]. *)
Definition py_getitem (key : string) (d : option (gmap string pyval)) : result pyval :=
  match d with
  | None => Err (TypeError "'NoneType' object is not subscriptable")
  | Some m =>
      match m !! key with
      | Some v => Ok v
      | None => Err (KeyError key)
      end
  end.

(** [handle_test_case]: the dictionary is popped in place, so the caller's
    dictionary is returned next to the flag. *)
Definition handle_test_case (scale_for_testing : gmap string pyval)
  : gmap string pyval * bool :=
  if bool_decide (is_Some (scale_for_testing !! "scale_for_testing"%string))
  then (delete "scale_for_testing"%string scale_for_testing, true)
  else (scale_for_testing, false).

Definition default_random_chunk_kwargs (chunk_size : Z) : gmap string pyval :=
  <["return_scaled"%string := PyBool true]>
  (<["num_chunks_per_segment"%string := PyInt 10]>
  (<["chunk_size"%string := PyInt chunk_size]>
  (<["concatenated"%string := PyBool false]>
  (<["seed"%string := PyInt 0]> ∅)))).

Definition handle_random_chunk_kwargs (rec : recording)
    (user_random_chunk_kwargs : option (gmap string pyval))
  : result (gmap string pyval * bool) :=
  present ← py_in "concatenated" user_random_chunk_kwargs;
  requested ← (if present : bool
               then v ← py_getitem "concatenated" user_random_chunk_kwargs;
                    Ok (truthy v)
               else Ok false);
  if requested : bool
  then Err (AttributeError
              "Custom random_chunk_kwargs cannot included data concatenation")
  else
    let chunk_size := py_int ((3 # 10) * get_sampling_frequency rec)%Q in
    let random_chunk_kwargs := default_random_chunk_kwargs chunk_size in
    let random_chunk_kwargs :=
      match user_random_chunk_kwargs with
      | Some user => user ∪ random_chunk_kwargs
      | None => random_chunk_kwargs
      end in
    Ok (handle_test_case random_chunk_kwargs).

(** ** NumPy helpers on vectors and (samples x channels) matrices *)

Abbreviation vec := (list Q).
(** A chunk is stored row by row: one row per sample, one entry per channel. *)
Abbreviation matrix := (list (list Q)).

Definition np_sum (v : vec) : Q := foldr Qplus 0%Q v.

Definition np_mean (v : vec) : Q := (np_sum v / inject_Z (Z.of_nat (length v)))%Q.

(** Number of columns, the second component of [raw.shape]. *)
Definition num_cols (m : matrix) : nat :=
  match m with
  | [] => 0%nat
  | row :: _ => length row
  end.

Definition column (j : nat) (m : matrix) : vec := map (fun row => nth j row 0%Q) m.

Definition columns (m : matrix) : list vec :=
  map (fun j => column j m) (seq 0 (num_cols m)).

Definition vsub (a b : vec) : vec := zip_with Qminus a b.
Definition vmul (a b : vec) : vec := zip_with Qmult a b.
Definition vscale (c : Q) (a : vec) : vec := map (Qmult c) a.
Definition vsquare (a : vec) : vec := map (fun x => (x * x)%Q) a.

(** [np.mean(m, axis=0)] and [m - np.mean(m, axis=0)[np.newaxis, :]]. *)
Definition mean_axis0 (m : matrix) : vec := map np_mean (columns m).
Definition sub_row (m : matrix) (r : vec) : matrix := map (fun row => vsub row r) m.
Definition mean_center (m : matrix) : matrix := sub_row m (mean_axis0 m).

(** Sorting, for medians. *)
Fixpoint insert_sorted (x : Q) (l : vec) : vec :=
  match l with
  | [] => [x]
  | y :: l' => if Qle_bool x y then x :: l else y :: insert_sorted x l'
  end.

Definition np_sort (l : vec) : vec := foldr insert_sorted [] l.

(** [np.median] of a vector: the middle element of the sorted vector, or the
    mean of the two middle elements when the length is even. *)
Definition np_median (l : vec) : Q :=
  let s := np_sort l in
  let n := length l in
  if Nat.odd n then nth (n / 2) s 0%Q
  else ((nth (n / 2 - 1) s 0 + nth (n / 2) s 0) / 2)%Q.

(** [np.median(raw, axis=1)]: per-sample median across channels. *)
Definition median_axis1 (m : matrix) : vec := map np_median m.

(** [np.allclose(a, b, rtol=0, atol=atol)]. *)
Definition allclose (a b : vec) (atol : Q) : bool :=
  forallb (fun p => Qle_bool (Qabs (fst p - snd p)) atol) (zip a b).

(** ** Similarity estimator *)

(** [fxcor] on vectors. [irfft(rfft(x) * conj(rfft(y)), n)] is, by the
    correlation theorem of the discrete Fourier transform, the circular
    cross-correlation of [x] and [y]: entry [k] is the sum over [j] of
    [x[(j + k) mod n] * y[j]]. *)
Definition fxcor (x y : vec) : vec :=
  let n := length x in
  map (fun k =>
         np_sum (map (fun j => (nth ((j + k) mod n) x 0 * nth j y 0)%Q) (seq 0 n)))
      (seq 0 n).

(** [nxcor] centres the reference and every channel before correlating;
    line 298 computes a value and discards it. *)
Definition nxcor (x : matrix) (ref : vec) : vec :=
  let ref := map (fun r => (r - np_mean ref)%Q) ref in
  let apeak := nth 0 (fxcor ref ref) 0%Q in
  let x := mean_center x in
  map (fun xj => (nth 0 (fxcor xj ref) 0 / apeak)%Q) (columns x).

(** The direct formula, [np.sum(raw * ref[:, np.newaxis], axis=0) / np.sum(ref ** 2)]. *)
Definition direct_similarity (raw : matrix) (ref : vec) : vec :=
  map (fun xj => (np_sum (vmul xj ref) / np_sum (vsquare ref))%Q) (columns raw).

Definition channel_simiarlity_new (raw : matrix) : vec :=
  let ref := median_axis1 raw in
  direct_similarity raw ref.

Definition channel_similarity (raw : matrix) : result vec :=
  let ref := median_axis1 raw in
  let xcor := nxcor raw ref in
  let alt_comp := direct_similarity raw ref in
  if allclose xcor alt_comp (1 # 100) then Ok xcor else Err AssertionError.

(** ** Detrend *)

(** [scipy.signal.medfilt(xs, k)] for odd [k]: the median of the window of
    [k] samples centred on each position, the signal being zero outside. *)
Definition medfilt_window (xs : vec) (k i : nat) : vec :=
  map (fun d => if (i + d <? k / 2)%nat then 0%Q else nth (i + d - k / 2) xs 0%Q)
      (seq 0 k).

Definition medfilt (xs : vec) (k : nat) : result vec :=
  if Nat.odd k
  then Ok (map (fun i => np_median (medfilt_window xs k i)) (seq 0 (length xs)))
  else Err (ValueError "Each element of kernel_size should be odd.").

(** [l[n:-n]]. *)
Definition slice_inner (n : nat) (l : vec) : vec :=
  if (n =? 0)%nat then [] else drop n (take (length l - n) l).

Definition detrend (x : vec) (nmed : nat) : result vec :=
  let ntap := ((nmed + 1) / 2)%nat in
  match head x, last x with
  | Some x_first, Some x_last =>
      let xf := replicate ntap x_first ++ x ++ replicate ntap x_last in
      filtered ← medfilt xf nmed;
      let xf := slice_inner ntap filtered in
      Ok (vsub x xf)
  | _, _ => Err IndexError
  end.

(** ** Index helpers *)

(** [np.where(mask)[0]]: the positions holding [true], in ascending order. *)
Fixpoint where_from (i : nat) (mask : list bool) : list nat :=
  match mask with
  | [] => []
  | b :: mask' => if b then i :: where_from (S i) mask' else where_from (S i) mask'
  end.

Definition np_where (mask : list bool) : list nat := where_from 0 mask.

(** [np.diff], [np.cumsum], [np.max] on integer vectors. *)
Definition np_diff (l : list Z) : list Z := zip_with (fun a b => b - a) l (tail l).

Fixpoint cumsum_from (acc : Z) (l : list Z) : list Z :=
  match l with
  | [] => []
  | x :: l' => (acc + x) :: cumsum_from (acc + x) l'
  end.

Definition np_cumsum (l : list Z) : list Z := cumsum_from 0 l.

Definition np_max (l : list Z) : Z :=
  match l with
  | [] => 0
  | x :: l' => foldl Z.max x l'
  end.

(** [v[mask]]: boolean-mask selection. *)
Definition mask_select {A : Type} (v : list A) (mask : list bool) : list A :=
  fst <$> filter (fun p => snd p = true) (zip v mask).

(** [labels[idx] = value]. *)
Definition assign_at (idx : list nat) (value : Z) (labels : list Z) : list Z :=
  foldl (fun acc i => <[i := value]> acc) labels idx.

(** ** Contiguous-region extraction (the body of the [if] on [ioutside]) *)

Definition trailing_run (ioutside : list nat) : list nat :=
  let a := np_cumsum (0 :: map (fun d => d - 1) (np_diff (map Z.of_nat ioutside))) in
  mask_select ioutside (map (fun x => x =? np_max a) a).

(** The indices that receive label 3. *)
Definition outside_channels (nc : nat) (ioutside : list nat) : list nat :=
  match last ioutside with
  | Some top => if Z.of_nat top =? Z.of_nat nc - 1 then trailing_run ioutside else []
  | None => []
  end.

(** ** Single-chunk classifier *)

Record xfeats : Type := {
  ind : list nat;
  rms_raw : vec;
  xcor_hf : vec;
  xcor_lf : vec;
  psd_hf : vec
}.

(** Lines 232-244: the recommendation from the features. *)
Definition make_recommendation (nc : nat) (feats : xfeats)
    (psd_hf_threshold : Q) (similarity_threshold : Q * Q) : list Z :=
  let ichannels := replicate nc 0 in
  let idead := np_where (map (fun x => Qltb x (fst similarity_threshold)) (xcor_hf feats)) in
  let inoisy :=
    np_where (zip_with orb
                (map (fun p => Qltb psd_hf_threshold p) (psd_hf feats))
                (map (fun x => Qltb (snd similarity_threshold) x) (xcor_hf feats))) in
  let ioutside := np_where (map (fun x => Qltb x (- (3 # 4))) (xcor_lf feats)) in
  let ichannels := assign_at (outside_channels nc ioutside) 3 ichannels in
  let ichannels := assign_at idead 1 ichannels in
  let ichannels := assign_at inoisy 2 ichannels in
  ichannels.

(** ** Mode across chunks

    [scipy.stats.mode] takes the sorted distinct values ([np.unique]) with
    their counts and returns the value at the first maximal count; of an
    empty axis it returns nan, here [None]. *)

Fixpoint insert_unique (x : Z) (l : list Z) : list Z :=
  match l with
  | [] => [x]
  | y :: l' =>
      if x <? y then x :: l
      else if x =? y then l
      else y :: insert_unique x l'
  end.

Definition np_unique (l : list Z) : list Z := foldr insert_unique [] l.

Definition count_of (v : Z) (l : list Z) : nat := length (filter (fun x => x = v) l).

Fixpoint argmax_first (best : Z) (cands l : list Z) : Z :=
  match cands with
  | [] => best
  | v :: cands' =>
      if (count_of best l <? count_of v l)%nat
      then argmax_first v cands' l
      else argmax_first best cands' l
  end.

Definition stats_mode (l : list Z) : option Z :=
  match np_unique l with
  | [] => None
  | v :: vs => Some (argmax_first v vs l)
  end.

(** The label matrix is kept column by column (one column per chunk);
    [row i] is channel [i] across chunks. *)
Definition label_row (i : nat) (channel_labels : list (list Z)) : list Z :=
  map (fun col => nth i col 0) channel_labels.

Definition mode_axis1 (nc : nat) (channel_labels : list (list Z)) : list (option Z) :=
  map (fun i => stats_mode (label_row i channel_labels)) (seq 0 nc).

(** [channel_labels[:, i] = labels], with NumPy's index and broadcast checks. *)
Definition set_column (nc i : nat) (labels : list Z) (channel_labels : list (list Z))
  : result (list (list Z)) :=
  if (length channel_labels <=? i)%nat then Err IndexError
  else if (length labels =? nc)%nat then Ok (<[i := labels]> channel_labels)
  else match labels with
       | [x] => Ok (<[i := replicate nc x]> channel_labels)
       | _ => Err (ValueError "could not broadcast input array")
       end.

(** A dimension passed to [np.zeros]. *)
Definition as_dimension (v : pyval) : result nat :=
  match v with
  | PyInt z => if z <? 0 then Err (ValueError "negative dimensions are not allowed")
               else Ok (Z.to_nat z)
  | PyBool b => Ok (if b then 1%nat else 0%nat)
  | _ => Err (TypeError "object cannot be interpreted as an integer")
  end.

(** [ids[bad_inds]]. *)
Definition take_ids (ids : list string) (bad_inds : list nat) : result (list string) :=
  foldr (fun i acc =>
           rest ← acc;
           match ids !! i with
           | Some x => Ok (x :: rest)
           | None => Err IndexError
           end) (Ok []) bad_inds.

(** [flag != 0], a nan flag being different from zero. *)
Definition flag_is_bad (flag : option Z) : bool :=
  match flag with
  | Some z => negb (z =? 0)
  | None => true
  end.

Definition too_many_bad (n_bad n_channels : nat) : bool :=
  Qltb (inject_Z (Z.of_nat n_channels) * (333 # 1000))%Q (inject_Z (Z.of_nat n_bad)).

Definition warning_text : string :=
  "Over 1/3 of channels are detected as bad. In the precense of a highnumber of dead / noisy channels, bad channel detection may fail (erroneously label good channels as dead).".

(** The default of [psd_hf_threshold], line 114. *)
Definition default_psd_hf_threshold : result Q :=
  fs ← load_global "fs";
  low_rate ← py_lt fs (PyInt 5000);
  Ok (if low_rate : bool then 14 # 10 else 2 # 100)%Q.

(** Line 217: [scale = 1e6 if scale_for_testing else 1]. *)
Definition psd_scale (scale_for_testing : bool) : Q :=
  if scale_for_testing then 1000000%Q else 1%Q.

(** [np.mean(m, axis=0)] for a matrix known to have [ncols] columns. *)
Definition mean_axis0_of (ncols : nat) (m : matrix) : vec :=
  map (fun j => np_mean (column j m)) (seq 0 ncols).

Section Detector.

(** [scipy.signal.welch(x, fs=fs, axis=0)]: frequencies and the PSD matrix
    (frequency bins x channels). *)
Variable welch : matrix -> Q -> vec * matrix.
(** [sosfiltfilt(butter(N=3, Wn=300 / fs * 2, btype='highpass', output='sos'), x, axis=0)]. *)
Variable sosfiltfilt_highpass : Q -> matrix -> matrix.
Variable np_sqrt : Q -> Q.
(** The chunk sampler of the core package. *)
Variable get_random_data_chunks : recording -> gmap string pyval -> list matrix.

Definition rms (x : matrix) : vec :=
  map (fun xj => np_sqrt (np_mean (vsquare xj))) (columns x).

Definition detect_bad_channels_ibl (raw : matrix) (fs psd_hf_threshold : Q)
    (similarity_threshold : Q * Q) (scale_for_testing : bool)
  : result (list Z * xfeats) :=
  let nc := num_cols raw in
  let raw := mean_center raw in
  xcor ← channel_similarity raw;
  let xcor_new := channel_simiarlity_new raw in
  if negb (allclose xcor xcor_new (1 # 10000)) then Err AssertionError else
  let scale := psd_scale scale_for_testing in
  let '(fscale, psd) := welch (map (vscale scale) raw) fs in
  let hf := sosfiltfilt_highpass fs raw in
  xcorf ← channel_similarity hf;
  let rms_raw := rms raw in
  xcor_hf ← detrend xcor 11;
  xcorf_detrended ← detrend xcorf 11;
  let feats :=
    {| ind := seq 0 nc;
       rms_raw := rms_raw;
       xcor_hf := xcor_hf;
       xcor_lf := zip_with (fun c d => (c - d - 1)%Q) xcorf xcorf_detrended;
       psd_hf :=
         mean_axis0_of nc
           (mask_select psd (map (fun f => Qltb (fs / 2 * (8 # 10))%Q f) fscale)) |} in
  Ok (make_recommendation nc feats psd_hf_threshold similarity_threshold, feats).

(** The loop over the sampled chunks, carrying the label matrix. *)
Fixpoint classify_chunks (rec : recording) (psd_hf_threshold : Q)
    (similarity_threshold : Q * Q) (scale_for_testing : bool)
    (i : nat) (random_data : list matrix) (channel_labels : list (list Z))
  : M (list (list Z)) :=
  match random_data with
  | [] => mret channel_labels
  | random_chunk :: rest =>
      _ ← emit (EvClassify i);
      '(labels, _) ← lift (detect_bad_channels_ibl random_chunk
                             (get_sampling_frequency rec) psd_hf_threshold
                             similarity_threshold scale_for_testing);
      channel_labels ← lift (set_column (get_num_channels rec) i labels channel_labels);
      classify_chunks rec psd_hf_threshold similarity_threshold scale_for_testing
        (S i) rest channel_labels
  end.

(** Lines 134-146: mode, bad channels, advisory warning, return. *)
Definition aggregate (rec : recording) (channel_labels : list (list Z))
  : M (list nat * list string * list (option Z)) :=
  let channel_flags := mode_axis1 (get_num_channels rec) channel_labels in
  let bad_inds := np_where (map flag_is_bad channel_flags) in
  bad_channel_ids ← lift (take_ids (get_channel_ids rec) bad_inds);
  _ ← (if too_many_bad (length bad_channel_ids) (get_num_channels rec)
       then emit (EvWarn warning_text)
       else mret tt);
  mret (bad_inds, bad_channel_ids, channel_flags).

Definition detect_bad_channels (rec : recording) (psd_hf_threshold : option Q)
    (similarity_threshold : Q * Q)
    (random_chunk_kwargs : option (gmap string pyval))
  : M (list nat * list string * list (option Z)) :=
  psd_hf_threshold ← lift (match psd_hf_threshold with
                           | None => default_psd_hf_threshold
                           | Some t => Ok t
                           end);
  '(random_chunk_kwargs, scale_for_testing) ←
    lift (handle_random_chunk_kwargs rec random_chunk_kwargs);
  _ ← emit (EvSample random_chunk_kwargs);
  let random_data := get_random_data_chunks rec random_chunk_kwargs in
  per_segment ← lift (v ← py_getitem "num_chunks_per_segment" (Some random_chunk_kwargs);
                      as_dimension v);
  let channel_labels :=
    replicate (get_num_segments rec * per_segment)
              (replicate (get_num_channels rec) 0) in
  channel_labels ← classify_chunks rec psd_hf_threshold similarity_threshold
                     scale_for_testing 0 random_data channel_labels;
  aggregate rec channel_labels.

End Detector.

(** ** Removing channels by standard deviation

    [RemoveBadChannelsRecording.__init__]: the channels whose standard
    deviation over the sampled data is below [bad_threshold] times the median
    standard deviation are kept. The base-class initialisers and
    [ids_to_indices] belong to the core package; the model returns the kept
    positions, the kept identifiers and the stored keyword arguments. *)

(** [np.std(v)]: the square root of the mean of [abs(v - mean(v)) ** 2]. *)
Definition np_std (np_sqrt : Q -> Q) (v : vec) : Q :=
  np_sqrt (np_mean (vsquare (map (fun x => Qabs (x - np_mean v)) v))).

Section RemoveBadChannels.

Variable np_sqrt : Q -> Q.
(** [get_random_data_chunks(recording, **kwargs)] with its default of
    concatenated chunks: one (samples x channels) array. *)
Variable get_random_data : recording -> gmap string pyval -> matrix.

Definition keep_inds (random_data : matrix) (bad_threshold : Q) : list nat :=
  let stds := map (np_std np_sqrt) (columns random_data) in
  let thresh := (bad_threshold * np_median stds)%Q in
  np_where (map (fun s => Qltb s thresh) stds).


End RemoveBadChannels.

(** * Properties *)

(** ** Configuration handling *)

Lemma load_global_fs : load_global "fs" = Err (NameError "fs").
Proof. reflexivity. Qed.

Lemma default_psd_hf_threshold_unbound :
  default_psd_hf_threshold = Err (NameError "fs").
Proof. reflexivity. Qed.

Lemma handle_random_chunk_kwargs_none (rec : recording) :
  handle_random_chunk_kwargs rec None
  = Err (TypeError "argument of type 'NoneType' is not iterable").
Proof. reflexivity. Qed.

Lemma handle_random_chunk_kwargs_concatenated (rec : recording)
    (user : gmap string pyval) (v : pyval) :
  user !! "concatenated"%string = Some v ->
  truthy v = true ->
  handle_random_chunk_kwargs rec (Some user)
  = Err (AttributeError
           "Custom random_chunk_kwargs cannot included data concatenation").
Proof.
  intros Hv Ht. unfold handle_random_chunk_kwargs, py_in, py_getitem.
  cbn [mbind result_bind].
  rewrite bool_decide_eq_true_2 by (rewrite Hv; eauto).
  rewrite Hv. cbn. now rewrite Ht.
Qed.

(** When concatenation is not requested the user's entries are laid over
    the defaults and the test key is popped. *)
Lemma handle_random_chunk_kwargs_merge (rec : recording) (user : gmap string pyval) :
  (forall v, user !! "concatenated"%string = Some v -> truthy v = false) ->
  handle_random_chunk_kwargs rec (Some user)
  = Ok (handle_test_case
          (user ∪ default_random_chunk_kwargs
                    (py_int ((3 # 10) * get_sampling_frequency rec)%Q))).
Proof.
  intros Hc. unfold handle_random_chunk_kwargs, py_in, py_getitem.
  cbn [mbind result_bind].
  destruct (user !! "concatenated"%string) as [v|] eqn:Hv.
  - rewrite bool_decide_eq_true_2 by eauto. cbn. now rewrite (Hc v).
  - rewrite bool_decide_eq_false_2 by (intros [? ?]; discriminate). reflexivity.
Qed.

(** With an empty user dictionary the default policy is what the sampler gets. *)
Lemma handle_random_chunk_kwargs_empty (rec : recording) :
  handle_random_chunk_kwargs rec (Some ∅)
  = Ok (default_random_chunk_kwargs
          (py_int ((3 # 10) * get_sampling_frequency rec)%Q), false).
Proof.
  rewrite handle_random_chunk_kwargs_merge
    by (intros v Hv; rewrite lookup_empty in Hv; discriminate).
  now rewrite (left_id_L ∅ (∪)).
Qed.

Lemma default_random_chunk_kwargs_entries (chunk_size : Z) :
  default_random_chunk_kwargs chunk_size !! "return_scaled"%string = Some (PyBool true)
  /\ default_random_chunk_kwargs chunk_size !! "num_chunks_per_segment"%string
     = Some (PyInt 10)
  /\ default_random_chunk_kwargs chunk_size !! "chunk_size"%string
     = Some (PyInt chunk_size)
  /\ default_random_chunk_kwargs chunk_size !! "concatenated"%string
     = Some (PyBool false)
  /\ default_random_chunk_kwargs chunk_size !! "seed"%string = Some (PyInt 0).
Proof. repeat split. Qed.

(** A user entry overrides the default stored under the same key. *)
Lemma user_entry_overrides (rec : recording) (user : gmap string pyval)
    (key : string) (v : pyval) :
  (forall c, user !! "concatenated"%string = Some c -> truthy c = false) ->
  key <> "scale_for_testing"%string ->
  user !! key = Some v ->
  exists kwargs flag,
    handle_random_chunk_kwargs rec (Some user) = Ok (kwargs, flag)
    /\ kwargs !! key = Some v.
Proof.
  intros Hc Hk Hv. rewrite handle_random_chunk_kwargs_merge by exact Hc.
  unfold handle_test_case. case_bool_decide; eexists _, _; (split; [reflexivity|]).
  - rewrite lookup_delete_ne by congruence.
    now apply lookup_union_Some_l.
  - now apply lookup_union_Some_l.
Qed.

(** ** The advisory warning *)

Lemma too_many_bad_spec (n_bad n_channels : nat) :
  too_many_bad n_bad n_channels = true
  <-> 333 * Z.of_nat n_channels < 1000 * Z.of_nat n_bad.
Proof.
  unfold too_many_bad, Qltb. rewrite negb_true_iff, <- not_true_iff_false, Qle_bool_iff.
  unfold Qle. cbn. lia.
Qed.

(** More than a third of the channels always triggers the warning. *)
Lemma warning_over_one_third (n_bad n_channels : nat) :
  (n_channels < 3 * n_bad)%nat -> too_many_bad n_bad n_channels = true.
Proof. intros H. apply too_many_bad_spec. lia. Qed.

(** Neither branch of the advisory turns the result into an error: with an
    identifier for every channel the aggregation returns. *)
Lemma take_ids_in_range (ids : list string) (idx : list nat) :
  Forall (fun i => (i < length ids)%nat) idx ->
  exists out, take_ids ids idx = Ok out /\ length out = length idx.
Proof.
  induction 1 as [|i idx Hi _ IH]; [now exists []|].
  destruct IH as [out [Ho Hl]]. apply lookup_lt_is_Some in Hi as [x Hx].
  exists (x :: out). unfold take_ids in *. cbn [foldr]. rewrite Ho.
  cbn [mbind result_bind]. rewrite Hx. split; [reflexivity|].
  cbn. now rewrite Hl.
Qed.

Lemma where_from_bound (mask : list bool) :
  forall start, Forall (fun i => (start <= i < start + length mask)%nat)
                       (where_from start mask).
Proof.
  induction mask as [|b mask IH]; intros start; cbn; [constructor|].
  specialize (IH (S start)).
  assert (Forall (fun i => (start <= i < start + S (length mask))%nat)
                 (where_from (S start) mask))
    by (eapply Forall_impl; [exact IH|]; cbn; intros; lia).
  destruct b; [constructor; [lia|]|]; assumption.
Qed.

Lemma aggregate_returns (rec : recording) (labels : list (list Z)) (tr : list event) :
  (get_num_channels rec <= length (get_channel_ids rec))%nat ->
  exists out tr', aggregate rec labels tr = (Ok out, tr').
Proof.
  intros Hids. unfold aggregate.
  destruct (take_ids_in_range (get_channel_ids rec)
              (np_where (map flag_is_bad (mode_axis1 (get_num_channels rec) labels))))
    as [out [Ho _]].
  { eapply Forall_impl; [apply where_from_bound|]. cbn. intros i Hi.
    rewrite length_map in Hi. unfold mode_axis1 in Hi.
    rewrite length_map, length_seq in Hi. lia. }
  unfold mbind at 1, M_bind at 1, lift at 1. cbn beta iota. rewrite Ho.
  unfold mbind, M_bind. destruct (too_many_bad _ _); cbn; eauto.
Qed.

(** C5. The warning is guarded by [bad > channels * 0.333], not by a third:
    with 3 channels of which 1 is bad (exactly one third) the guard holds,
    and the aggregation on such a label matrix returns its result together
    with the warning. The last conjunct is a whole run of the detector that
    ends this way: one chunk of three identical channels, a spectrum with
    high-frequency power on the first channel only. *)
Theorem warning_at_exactly_one_third :
  let rec := {| get_sampling_frequency := 30000;
                get_num_channels := 3;
                get_num_segments := 1;
                get_channel_ids := ["ch0"; "ch1"; "ch2"]%string |} in
  (3 * 1 = get_num_channels rec)%nat
  /\ too_many_bad 1 (get_num_channels rec) = true
  /\ aggregate rec [[2; 0; 0]] []
     = (Ok ([0%nat], ["ch0"%string], [Some 2; Some 0; Some 0]), [EvWarn warning_text])
  /\ detect_bad_channels
       (fun _ fs => ([fs], [[1; 0; 0]]%Q)) (fun _ m => m) (fun q => q)
       (fun _ _ => [[[1; 1; 1]; [-1; -1; -1]]%Q])
       rec (Some (2 # 100)) (-(1 # 2), 1)%Q
       (Some {[ "num_chunks_per_segment"%string := PyInt 1 ]}) []
     = (Ok ([0%nat], ["ch0"%string], [Some 2; Some 0; Some 0]),
        [EvSample (<["num_chunks_per_segment"%string := PyInt 1]>
                     (default_random_chunk_kwargs 9000));
         EvClassify 0;
         EvWarn warning_text]).
Proof. repeat split; vm_compute; reflexivity. Qed.

(** ** Detrend *)





Lemma slice_inner_map_seq {A : Type} (g : nat -> Q) (ntap n : nat) :
  (0 < ntap)%nat ->
  slice_inner ntap (map g (seq 0 (ntap + n + ntap))) = map g (seq ntap n).
Proof.
  intros Hn. unfold slice_inner.
  assert ((ntap =? 0)%nat = false) as -> by (apply Nat.eqb_neq; lia).
  rewrite length_map, length_seq.
  rewrite firstn_map, skipn_map, take_seq, drop_seq.
  f_equal. f_equal; lia.
Qed.


Lemma odd_half (w : nat) :
  Nat.odd w = true -> (w = 2 * (w / 2) + 1 /\ (w + 1) / 2 = w / 2 + 1)%nat.
Proof.
  intros Hw. apply Nat.odd_spec in Hw as [h ->].
  replace ((2 * h + 1) / 2)%nat with h
    by (apply Nat.div_unique with 1%nat; lia).
  split; [reflexivity|].
  symmetry; apply Nat.div_unique with 0%nat; lia.
Qed.

(** The shape of [detrend] on a non-empty vector and an odd window. *)
Lemma detrend_structure (x : vec) (w : nat) (x_first x_last : Q) :
  head x = Some x_first -> last x = Some x_last -> Nat.odd w = true ->
  let ntap := ((w + 1) / 2)%nat in
  let padded := replicate ntap x_first ++ x ++ replicate ntap x_last in
  let filtered := map (fun i => np_median (medfilt_window padded w i))
                      (seq 0 (length padded)) in
  (w <= 2 * ntap <= w + 1)%nat
  /\ length (slice_inner ntap filtered) = length x
  /\ detrend x w = Ok (vsub x (slice_inner ntap filtered)).
Proof.
  intros Hh Hl Hw ntap padded filtered.
  destruct (odd_half w Hw) as [Hw2 Hn]. fold ntap in Hn.
  split; [lia|]. split.
  - unfold filtered, padded. rewrite !length_app, !length_replicate.
    replace (ntap + (length x + ntap))%nat with (ntap + length x + ntap)%nat by lia.
    rewrite (slice_inner_map_seq (A := Q)) by lia.
    now rewrite length_map, length_seq.
  - unfold detrend. rewrite Hh, Hl. fold ntap. fold padded.
    unfold medfilt. rewrite Hw. reflexivity.
Qed.


(** ** Index selection and label assignment *)

Lemma Qltb_lt (a b : Q) : Qltb a b = true <-> (a < b)%Q.
Proof.
  unfold Qltb. rewrite negb_true_iff, <- not_true_iff_false, Qle_bool_iff.
  split; [apply Qnot_le_lt | apply Qlt_not_le].
Qed.

Lemma lookup_List_map {A B : Type} (f : A -> B) (l : list A) (i : nat) :
  map f l !! i = f <$> (l !! i).
Proof. exact (list_lookup_fmap f l i). Qed.

Lemma elem_of_where_from (mask : list bool) :
  forall start i,
    i ∈ where_from start mask
    <-> exists k, i = (start + k)%nat /\ mask !! k = Some true.
Proof.
  induction mask as [|b mask IH]; intros start i; cbn [where_from].
  - split; [intros H; inversion H | intros [k [_ Hk]]; discriminate].
  - assert (Htail : i ∈ where_from (S start) mask
                    <-> exists k, i = (start + S k)%nat /\ mask !! k = Some true).
    { rewrite IH. split; intros [k [-> Hk]]; exists k; (split; [lia|exact Hk]). }
    destruct b.
    + rewrite elem_of_cons, Htail. split.
      * intros [->|[k [-> Hk]]]; [exists 0%nat; split; [lia|reflexivity]|].
        exists (S k). now split.
      * intros [[|k] [-> Hk]]; [left; lia|]. right. exists k. now split.
    + rewrite Htail. split.
      * intros [k [-> Hk]]. exists (S k). now split.
      * intros [[|k] [-> Hk]]; [discriminate|]. exists k. now split.
Qed.

Lemma elem_of_np_where (mask : list bool) (i : nat) :
  i ∈ np_where mask <-> mask !! i = Some true.
Proof.
  unfold np_where. rewrite elem_of_where_from. split.
  - now intros [k [-> Hk]].
  - intros H. now exists i.
Qed.

Lemma length_assign_at (idx : list nat) (v : Z) :
  forall labels, length (assign_at idx v labels) = length labels.
Proof.
  unfold assign_at. induction idx as [|j idx IH]; intros labels; [reflexivity|].
  cbn [foldl]. now rewrite IH, length_insert.
Qed.

Lemma lookup_assign_at_notin (idx : list nat) (v : Z) (i : nat) :
  i ∉ idx -> forall labels, assign_at idx v labels !! i = labels !! i.
Proof.
  unfold assign_at. induction idx as [|j idx IH]; intros Hi labels; [reflexivity|].
  apply not_elem_of_cons in Hi as [Hij Hi]. cbn [foldl].
  rewrite IH by exact Hi. apply list_lookup_insert_ne. congruence.
Qed.

Lemma lookup_assign_at_in (idx : list nat) (v : Z) (i : nat) :
  i ∈ idx -> forall labels, (i < length labels)%nat ->
  assign_at idx v labels !! i = Some v.
Proof.
  induction idx as [|j idx IH]; intros Hi labels Hlen; [inversion Hi|].
  change (assign_at (j :: idx) v labels) with (assign_at idx v (<[j := v]> labels)).
  destruct (decide (i ∈ idx)) as [Hin|Hnot].
  - apply IH; [exact Hin|]. now rewrite length_insert.
  - apply elem_of_cons in Hi as [->|Hin]; [|contradiction].
    rewrite lookup_assign_at_notin by exact Hnot.
    now apply list_lookup_insert_eq.
Qed.

(** ** Label precedence *)

Lemma make_recommendation_noisy_wins (nc : nat) (feats : xfeats) (thr low high : Q)
    (i : nat) (x p : Q) :
  (i < nc)%nat ->
  xcor_hf feats !! i = Some x ->
  psd_hf feats !! i = Some p ->
  (x < low)%Q ->
  (thr < p \/ high < x)%Q ->
  make_recommendation nc feats thr (low, high) !! i = Some 2.
Proof.
  intros Hi Hx Hp _ Hnoisy. unfold make_recommendation.
  apply lookup_assign_at_in.
  - apply elem_of_np_where. rewrite lookup_zip_with.
    rewrite !lookup_List_map, Hp. cbn. rewrite Hx. cbn.
    f_equal. apply orb_true_iff.
    destruct Hnoisy as [H|H]; [left|right]; now apply Qltb_lt.
  - now rewrite !length_assign_at, length_replicate.
Qed.

(** ** Mode across chunks *)

Lemma elem_of_insert_unique (x y : Z) (l : list Z) :
  y ∈ insert_unique x l <-> y = x \/ y ∈ l.
Proof.
  induction l as [|z l IH]; cbn [insert_unique].
  - rewrite list_elem_of_singleton, elem_of_nil. tauto.
  - destruct (x <? z) eqn:Hlt; [now rewrite elem_of_cons|].
    destruct (x =? z) eqn:Heq.
    + apply Z.eqb_eq in Heq as ->. rewrite elem_of_cons. tauto.
    + rewrite !elem_of_cons, IH. tauto.
Qed.

Lemma sorted_insert_unique (x : Z) (l : list Z) :
  StronglySorted Z.lt l -> StronglySorted Z.lt (insert_unique x l).
Proof.
  induction 1 as [|z l Hs IH Hz]; cbn [insert_unique].
  - repeat constructor.
  - destruct (x <? z) eqn:Hlt.
    + apply Z.ltb_lt in Hlt. constructor; [now constructor|].
      constructor; [exact Hlt|]. eapply Forall_impl; [exact Hz|]. cbn. lia.
    + destruct (x =? z) eqn:Heq; [now constructor|].
      apply Z.ltb_ge in Hlt. apply Z.eqb_neq in Heq.
      constructor; [exact IH|]. apply Forall_forall. intros y Hy.
      apply elem_of_insert_unique in Hy as [->|Hy]; [lia|].
      rewrite Forall_forall in Hz. now apply Hz.
Qed.

Lemma elem_of_np_unique (y : Z) (l : list Z) : y ∈ np_unique l <-> y ∈ l.
Proof.
  unfold np_unique. induction l as [|x l IH]; cbn [foldr]; [reflexivity|].
  rewrite elem_of_insert_unique, IH, elem_of_cons. reflexivity.
Qed.

Lemma sorted_np_unique (l : list Z) : StronglySorted Z.lt (np_unique l).
Proof.
  unfold np_unique. induction l as [|x l IH]; cbn [foldr]; [constructor|].
  now apply sorted_insert_unique.
Qed.

Lemma count_of_pos (v : Z) (l : list Z) : (0 < count_of v l)%nat <-> v ∈ l.
Proof.
  unfold count_of. induction l as [|x l IH]; cbn.
  - split; [lia|intros H; inversion H].
  - rewrite elem_of_cons. unfold filter in *. cbn. destruct (decide (x = v)) as [->|Hne].
    + cbn. split; [now left|lia].
    + rewrite IH. split; [now right|]. intros [->|H]; [contradiction|exact H].
Qed.

(** Scanning ascending candidates and replacing the best only on a strictly
    larger count returns the smallest value among those of maximal count. *)
Lemma argmax_first_spec (l cands : list Z) :
  forall best,
    StronglySorted Z.lt (best :: cands) ->
    let r := argmax_first best cands l in
    r ∈ best :: cands
    /\ (forall v, v ∈ best :: cands -> (count_of v l <= count_of r l)%nat)
    /\ (forall v, v ∈ best :: cands -> count_of v l = count_of r l -> r <= v).
Proof.
  induction cands as [|c cands IH]; intros best Hs; cbn [argmax_first].
  - split; [constructor|]. split; intros v Hv; apply list_elem_of_singleton in Hv as ->; lia.
  - inversion Hs as [|? ? Hs' Hall]; subst.
    inversion Hall as [|? ? Hbc Hall']; subst.
    destruct (count_of best l <? count_of c l)%nat eqn:Hcmp.
    + apply Nat.ltb_lt in Hcmp.
      destruct (IH c Hs') as [Hin [Hmax Hmin]].
      assert (Hc := Hmax c ltac:(constructor)).
      split; [now apply list_elem_of_further|]. split; intros v Hv.
      * apply elem_of_cons in Hv as [->|Hv]; [lia|now apply Hmax].
      * apply elem_of_cons in Hv as [->|Hv]; [lia|now apply Hmin].
    + apply Nat.ltb_ge in Hcmp.
      assert (Hs2 : StronglySorted Z.lt (best :: cands)).
      { inversion Hs'; subst. now constructor. }
      destruct (IH best Hs2) as [Hin [Hmax Hmin]].
      assert (Hb := Hmax best ltac:(constructor)).
      assert (Hrb : count_of c l = count_of (argmax_first best cands l) l ->
                    argmax_first best cands l <= c).
      { intros Heq. assert (argmax_first best cands l <= best); [|lia].
        apply Hmin; [constructor|lia]. }
      split; [rewrite !elem_of_cons in *; tauto|]. split; intros v Hv.
      * apply elem_of_cons in Hv as [->|Hv]; [exact Hb|].
        apply elem_of_cons in Hv as [->|Hv]; [lia|]. apply Hmax. now apply list_elem_of_further.
      * apply elem_of_cons in Hv as [->|Hv]; [apply Hmin; constructor|].
        apply elem_of_cons in Hv as [->|Hv]; [exact Hrb|]. apply Hmin. now apply list_elem_of_further.
Qed.

Lemma stats_mode_spec (l : list Z) :
  l <> [] ->
  exists m,
    stats_mode l = Some m
    /\ m ∈ l
    /\ (forall v, (count_of v l <= count_of m l)%nat)
    /\ (forall v, count_of v l = count_of m l -> m <= v).
Proof.
  intros Hne. unfold stats_mode.
  pose proof (sorted_np_unique l) as Hs.
  pose proof (fun y => elem_of_np_unique y l) as Hu.
  destruct (np_unique l) as [|u us].
  { destruct l as [|x l]; [contradiction|]. exfalso. apply (elem_of_nil x), Hu. constructor. }
  destruct (argmax_first_spec l us u Hs) as [Hin [Hmax Hmin]].
  set (m := argmax_first u us l) in *.
  assert (Hml : m ∈ l) by now apply Hu.
  assert (Hpos : (0 < count_of m l)%nat) by now apply count_of_pos.
  exists m. split; [reflexivity|]. split; [exact Hml|]. split; intros v.
  - destruct (decide (v ∈ l)) as [Hv|Hv]; [apply Hmax, Hu, Hv|].
    rewrite <- count_of_pos in Hv. lia.
  - intros Heq. apply Hmin; [|exact Heq].
    apply Hu, count_of_pos. lia.
Qed.

Lemma length_label_row (i : nat) (channel_labels : list (list Z)) :
  length (label_row i channel_labels) = length channel_labels.
Proof. apply length_map. Qed.

Lemma lookup_mode_axis1 (nc i : nat) (channel_labels : list (list Z)) :
  (i < nc)%nat ->
  mode_axis1 nc channel_labels !! i = Some (stats_mode (label_row i channel_labels)).
Proof.
  intros Hi. unfold mode_axis1. rewrite lookup_List_map.
  now rewrite lookup_seq_lt.
Qed.

Lemma aggregate_flags (rec : recording) (channel_labels : list (list Z))
    (tr tr' : list event) (bad_inds : list nat) (bad_ids : list string)
    (flags : list (option Z)) :
  aggregate rec channel_labels tr = (Ok (bad_inds, bad_ids, flags), tr') ->
  flags = mode_axis1 (get_num_channels rec) channel_labels.
Proof.
  unfold aggregate, mbind, M_bind, lift.
  destruct (take_ids _ _) as [ids|]; [|discriminate].
  destruct (too_many_bad _ _); cbn; intros H; now inversion H.
Qed.

(** C6. The final flag of a channel is the mode of its labels across the
    chunks: a label of the row whose count no other value exceeds and which
    is the smallest of the values reaching that count. The flags returned
    by the aggregation are these modes, and the labels 0, 0, 1 of a channel
    over three chunks give the flag 0. *)
Theorem mode_aggregation (rec : recording) (channel_labels : list (list Z)) (i : nat) :
  (i < get_num_channels rec)%nat ->
  channel_labels <> [] ->
  let row := label_row i channel_labels in
  (exists m,
     mode_axis1 (get_num_channels rec) channel_labels !! i = Some (Some m)
     /\ m ∈ row
     /\ (forall v, (count_of v row <= count_of m row)%nat)
     /\ (forall v, count_of v row = count_of m row -> m <= v))
  /\ (forall tr tr' bad_inds bad_ids flags,
        aggregate rec channel_labels tr = (Ok (bad_inds, bad_ids, flags), tr') ->
        flags = mode_axis1 (get_num_channels rec) channel_labels)
  /\ stats_mode [0; 0; 1] = Some 0.
Proof.
  intros Hi Hne row. split; [|split; [|reflexivity]].
  - destruct (stats_mode_spec row) as [m [Hm Hrest]].
    { intros Hrow. apply (f_equal length) in Hrow.
      unfold row in Hrow. rewrite length_label_row in Hrow.
      destruct channel_labels; [contradiction|discriminate]. }
    exists m. split; [|exact Hrest].
    rewrite lookup_mode_axis1 by exact Hi. fold row. now rewrite Hm.
  - intros tr tr' bad_inds bad_ids flags. apply aggregate_flags.
Qed.

(** ** Contiguous-region extraction *)

Lemma sorted_where_from (mask : list bool) :
  forall start, StronglySorted lt (where_from start mask).
Proof.
  induction mask as [|b mask IH]; intros start; cbn [where_from]; [constructor|].
  destruct b; [|apply IH]. constructor; [apply IH|].
  eapply Forall_impl; [apply (where_from_bound mask (S start))|]. cbn. lia.
Qed.

Lemma sorted_lookup_lt (l : list nat) :
  StronglySorted lt l ->
  forall j k a b, (j < k)%nat -> l !! j = Some a -> l !! k = Some b -> (a < b)%nat.
Proof.
  induction 1 as [|x l Hs IH Hx]; intros j k a b Hjk Ha Hb; [discriminate|].
  destruct k as [|k]; [lia|]. cbn in Hb. destruct j as [|j].
  - cbn in Ha. injection Ha as ->. rewrite Forall_forall in Hx.
    apply Hx. eapply list_elem_of_lookup_2. exact Hb.
  - cbn in Ha. apply (IH j k); [lia|assumption|assumption].
Qed.

(** In a strictly ascending list, values grow at least as fast as positions. *)
Lemma sorted_lookup_gap (l : list nat) :
  StronglySorted lt l ->
  forall d j a b, l !! j = Some a -> l !! (j + d)%nat = Some b -> (a + d <= b)%nat.
Proof.
  intros Hs. induction d as [|d IH]; intros j a b Ha Hb.
  - rewrite Nat.add_0_r in Hb. assert (a = b) by congruence. lia.
  - assert (Hlt : (j + d < length l)%nat).
    { apply lookup_lt_Some in Hb. lia. }
    apply lookup_lt_is_Some in Hlt as [c Hc].
    pose proof (IH j a c Ha Hc).
    pose proof (sorted_lookup_lt l Hs (j + d) (j + S d) c b ltac:(lia) Hc Hb). lia.
Qed.

Lemma sorted_lookup_inj (l : list nat) :
  StronglySorted lt l ->
  forall j k a, l !! j = Some a -> l !! k = Some a -> j = k.
Proof.
  intros Hs j k a Hj Hk.
  destruct (Nat.lt_trichotomy j k) as [H|[H|H]]; [|exact H|].
  - pose proof (sorted_lookup_lt l Hs j k a a H Hj Hk). lia.
  - pose proof (sorted_lookup_lt l Hs k j a a H Hk Hj). lia.
Qed.

Lemma foldl_max_spec (l : list Z) :
  forall x,
    foldl Z.max x l ∈ x :: l /\ (forall y, y ∈ x :: l -> y <= foldl Z.max x l).
Proof.
  induction l as [|z l IH]; intros x; cbn [foldl].
  - split; [apply elem_of_cons; now left|].
    intros y Hy. apply list_elem_of_singleton in Hy as ->. lia.
  - destruct (IH (Z.max x z)) as [Hin Hmax]. split.
    + apply elem_of_cons in Hin as [Heq|Hin].
      * rewrite Heq. destruct (Z.max_spec x z) as [[_ ->]|[_ ->]];
          rewrite !elem_of_cons; tauto.
      * rewrite !elem_of_cons. tauto.
    + intros y Hy. apply elem_of_cons in Hy as [->|Hy].
      * etransitivity; [|apply Hmax, elem_of_cons; now left]. lia.
      * apply elem_of_cons in Hy as [->|Hy].
        -- etransitivity; [|apply Hmax, elem_of_cons; now left]. lia.
        -- apply Hmax. apply elem_of_cons. now right.
Qed.

Lemma np_max_spec (l : list Z) :
  l <> [] -> np_max l ∈ l /\ (forall y, y ∈ l -> y <= np_max l).
Proof.
  destruct l as [|x l]; [contradiction|]. intros _. apply foldl_max_spec.
Qed.

Lemma elem_of_mask_select {A : Type} (v : list A) :
  forall (mask : list bool) (x : A),
    x ∈ mask_select v mask
    <-> exists k, v !! k = Some x /\ mask !! k = Some true.
Proof.
  unfold mask_select. induction v as [|a v IH]; intros mask x.
  - cbn. rewrite elem_of_nil. split; [tauto|]. intros [k [Hk _]]. discriminate.
  - destruct mask as [|b mask].
    + cbn. rewrite elem_of_nil. split; [tauto|]. intros [k [_ Hk]]. discriminate.
    + cbn [zip zip_with]. rewrite filter_cons. cbn [snd].
      assert (Htail : x ∈ fst <$> filter (fun p => p.2 = true) (zip v mask)
                      <-> exists k, (a :: v) !! S k = Some x
                                    /\ (b :: mask) !! S k = Some true)
        by apply IH.
      destruct (decide (b = true)) as [->|Hb].
      * rewrite fmap_cons, elem_of_cons, Htail. cbn [fst]. split.
        -- intros [->|[k Hk]]; [now exists 0%nat|now exists (S k)].
        -- intros [[|k] Hk]; [left; cbn in Hk; destruct Hk; congruence|].
           right. now exists k.
      * rewrite Htail. split.
        -- intros [k Hk]. now exists (S k).
        -- intros [[|k] Hk]; [cbn in Hk; destruct Hk; congruence|]. now exists k.
Qed.

Lemma np_diff_cons2 (x z : Z) (zs : list Z) :
  np_diff (x :: z :: zs) = (z - x) :: np_diff (z :: zs).
Proof. reflexivity. Qed.

(** Entry [k] of the running gap count is [zs[k] - zs[0] - k]. *)
Lemma lookup_gap_sums (zs : list Z) :
  forall (x acc : Z) (k : nat) (y : Z),
    (x :: zs) !! k = Some y ->
    (acc :: cumsum_from acc (map (fun d => d - 1) (np_diff (x :: zs)))) !! k
    = Some (acc + (y - x) - Z.of_nat k).
Proof.
  induction zs as [|z zs IH]; intros x acc k y Hk.
  - destruct k as [|k]; [|discriminate]. cbn in Hk. injection Hk as ->.
    cbn. f_equal. lia.
  - destruct k as [|k].
    + cbn in Hk. injection Hk as ->. cbn. f_equal. lia.
    + rewrite np_diff_cons2. cbn [map cumsum_from].
      change ((acc :: ?h :: ?t) !! S k) with ((h :: t) !! k).
      rewrite (IH z (acc + (z - x - 1)) k y Hk). f_equal. lia.
Qed.

Lemma length_gap_sums (zs : list Z) :
  forall x acc,
    length (acc :: cumsum_from acc (map (fun d => d - 1) (np_diff (x :: zs))))
    = length (x :: zs).
Proof.
  induction zs as [|z zs IH]; intros x acc; [reflexivity|].
  rewrite np_diff_cons2. cbn [map cumsum_from length] in *. f_equal. apply IH.
Qed.

(** The entries selected by [trailing_run]: those whose distance to the top
    entry equals their distance in position. *)
Lemma trailing_run_spec (l : list nat) (top i : nat) :
  StronglySorted lt l ->
  last l = Some top ->
  i ∈ trailing_run l
  <-> exists k, l !! k = Some i /\ (i + (length l - 1 - k) = top)%nat.
Proof.
  intros Hs Hlast. rewrite last_lookup in Hlast.
  destruct l as [|i0 l']; [discriminate|].
  set (l := i0 :: l') in *.
  assert (Hll : length l = S (length l')) by reflexivity.
  set (a := np_cumsum (0 :: map (fun d => d - 1) (np_diff (map Z.of_nat l)))).
  assert (Ha : forall k y, l !! k = Some y ->
                 a !! k = Some (Z.of_nat y - Z.of_nat i0 - Z.of_nat k)).
  { intros k y Hk. unfold a, np_cumsum. cbn [cumsum_from]. unfold l. cbn [map].
    rewrite (lookup_gap_sums (map Z.of_nat l') (Z.of_nat i0) (0 + 0) k (Z.of_nat y)).
    - f_equal; lia.
    - change (Z.of_nat i0 :: map Z.of_nat l') with (map Z.of_nat l).
      now rewrite lookup_List_map, Hk. }
  assert (Hne : a <> []) by (unfold a, np_cumsum; cbn; discriminate).
  destruct (np_max_spec a Hne) as [Hmax_in Hmax_ge].
  assert (Htop : a !! pred (length l)
                 = Some (Z.of_nat top - Z.of_nat i0 - Z.of_nat (pred (length l))))
    by now apply Ha.
  assert (Hmax : np_max a = Z.of_nat top - Z.of_nat i0 - Z.of_nat (pred (length l))).
  { apply Z.le_antisymm.
    - apply list_elem_of_lookup in Hmax_in as [k Hk].
      assert (Hkl : (k < length l)%nat).
      { pose proof (lookup_lt_Some _ _ _ Hk) as Hlen.
        unfold a, np_cumsum in Hlen. cbn [cumsum_from] in Hlen.
        unfold l in Hlen. cbn [map] in Hlen. rewrite length_gap_sums in Hlen.
        cbn [length] in Hlen. rewrite length_map in Hlen. exact Hlen. }
      apply lookup_lt_is_Some in Hkl as [y Hy].
      assert (Hval : np_max a = Z.of_nat y - Z.of_nat i0 - Z.of_nat k)
        by (rewrite (Ha k y Hy) in Hk; congruence).
      rewrite Hval.
      pose proof (sorted_lookup_gap l Hs (pred (length l) - k) k y top Hy) as Hgap.
      apply lookup_lt_Some in Hy.
      replace (k + (pred (length l) - k))%nat with (pred (length l)) in Hgap by lia.
      specialize (Hgap Hlast). lia.
    - apply Hmax_ge. eapply list_elem_of_lookup_2. exact Htop. }
  unfold trailing_run. fold l. fold a. rewrite elem_of_mask_select, Hmax. split.
  - intros [k [Hk Hm]]. exists k. split; [exact Hk|].
    rewrite lookup_List_map, (Ha k i Hk) in Hm.
    cbn [fmap option_fmap option_map] in Hm. injection Hm as Hm.
    apply Z.eqb_eq in Hm. apply lookup_lt_Some in Hk. lia.
  - intros [k [Hk Heq]]. exists k. split; [exact Hk|].
    rewrite lookup_List_map, (Ha k i Hk).
    cbn [fmap option_fmap option_map]. f_equal. apply Z.eqb_eq.
    apply lookup_lt_Some in Hk. lia.
Qed.

(** In a strictly ascending list, the entries at full distance from the top
    are exactly those from which every index up to the top is present. *)
Lemma contiguous_to_top (l : list nat) (top i : nat) :
  StronglySorted lt l ->
  last l = Some top ->
  (exists k, l !! k = Some i /\ (i + (length l - 1 - k) = top)%nat)
  <-> (i ∈ l /\ forall j, (i <= j <= top)%nat -> j ∈ l).
Proof.
  intros Hs Hlast. rewrite last_lookup in Hlast. split.
  - intros [k [Hk Heq]]. split; [eapply list_elem_of_lookup_2; exact Hk|].
    intros j Hj. pose proof (lookup_lt_Some _ _ _ Hk) as Hkl.
    assert (Hpos : (k + (j - i) < length l)%nat) by lia.
    apply lookup_lt_is_Some in Hpos as [c Hc].
    pose proof (sorted_lookup_gap l Hs (j - i) k i c Hk Hc) as Hlo.
    pose proof (sorted_lookup_gap l Hs (pred (length l) - (k + (j - i)))
                  (k + (j - i)) c top Hc) as Hhi.
    replace (k + (j - i) + (pred (length l) - (k + (j - i))))%nat
      with (pred (length l)) in Hhi by lia.
    specialize (Hhi Hlast).
    assert (c = j) as -> by lia.
    eapply list_elem_of_lookup_2. exact Hc.
  - intros [Hi Hall]. apply list_elem_of_lookup in Hi as [k Hk]. exists k.
    split; [exact Hk|].
    assert (Hstep : forall m, (i + m <= top)%nat -> l !! (k + m)%nat = Some (i + m)%nat).
    { induction m as [|m IHm]; intros Hm.
      - now rewrite !Nat.add_0_r.
      - specialize (IHm ltac:(lia)).
        pose proof (Hall (i + S m)%nat ltac:(lia)) as Hin.
        apply list_elem_of_lookup in Hin as [p Hp].
        destruct (Nat.lt_trichotomy p (k + S m)) as [Hlt|[->|Hgt]]; [|exact Hp|].
        + destruct (Nat.eq_dec p (k + m)) as [Heq|Hne];
            [subst p; rewrite IHm in Hp; injection Hp; lia|].
          pose proof (sorted_lookup_lt l Hs p (k + m) _ _ ltac:(lia) Hp IHm). lia.
        + assert (Hex : (k + S m < length l)%nat).
          { apply lookup_lt_Some in Hp. lia. }
          apply lookup_lt_is_Some in Hex as [c Hc].
          pose proof (sorted_lookup_lt l Hs (k + m) (k + S m) _ _ ltac:(lia) IHm Hc).
          pose proof (sorted_lookup_lt l Hs (k + S m) p _ _ Hgt Hc Hp). lia. }
    pose proof (sorted_lookup_gap l Hs (pred (length l) - k) k i top Hk) as Hge.
    pose proof (lookup_lt_Some _ _ _ Hk) as Hkl.
    replace (k + (pred (length l) - k))%nat with (pred (length l)) in Hge by lia.
    specialize (Hge Hlast).
    specialize (Hstep (top - i)%nat ltac:(lia)).
    replace (i + (top - i))%nat with top in Hstep by lia.
    pose proof (sorted_lookup_inj l Hs _ _ _ Hstep Hlast). lia.
Qed.

Lemma np_where_bound (mask : list bool) (i : nat) :
  i ∈ np_where mask -> (i < length mask)%nat.
Proof.
  intros Hi. apply elem_of_np_where in Hi. now apply lookup_lt_Some in Hi.
Qed.

(** The indices marked outside, for a mask over all the channels. *)
Lemma outside_channels_spec (mask : list bool) (i : nat) :
  i ∈ outside_channels (length mask) (np_where mask)
  <-> (i < length mask)%nat
      /\ forall j, (i <= j < length mask)%nat -> mask !! j = Some true.
Proof.
  pose proof (sorted_where_from mask 0) as Hs. fold (np_where mask) in Hs.
  unfold outside_channels.
  destruct (last (np_where mask)) as [top|] eqn:Hlast.
  - assert (Htop : (top < length mask)%nat).
    { apply np_where_bound. rewrite last_lookup in Hlast.
      eapply list_elem_of_lookup_2. exact Hlast. }
    destruct (Z.of_nat top =? Z.of_nat (length mask) - 1) eqn:Heq.
    + apply Z.eqb_eq in Heq.
      rewrite (trailing_run_spec _ top i Hs Hlast), (contiguous_to_top _ top i Hs Hlast).
      split.
      * intros [Hi Hall]. split; [now apply np_where_bound|].
        intros j Hj. apply elem_of_np_where, Hall. lia.
      * intros [Hi Hall]. split; [apply elem_of_np_where, Hall; lia|].
        intros j Hj. apply elem_of_np_where, Hall. lia.
    + apply Z.eqb_neq in Heq. rewrite elem_of_nil. split; [tauto|].
      intros [Hi Hall].
      assert (Hin : (length mask - 1)%nat ∈ np_where mask)
        by (apply elem_of_np_where, Hall; lia).
      apply list_elem_of_lookup in Hin as [p Hp].
      rewrite last_lookup in Hlast.
      pose proof (lookup_lt_Some _ _ _ Hp) as Hpl.
      destruct (Nat.eq_dec p (pred (length (np_where mask)))) as [->|Hne].
      * rewrite Hp in Hlast. injection Hlast as <-. lia.
      * assert (Hlt : (p < pred (length (np_where mask)))%nat) by lia.
        pose proof (sorted_lookup_lt _ Hs _ _ _ _ Hlt Hp Hlast). lia.
  - apply last_None in Hlast. rewrite elem_of_nil. split; [tauto|].
    intros [Hi Hall].
    assert (Hin : i ∈ np_where mask) by (apply elem_of_np_where, Hall; lia).
    rewrite Hlast in Hin. now apply elem_of_nil in Hin.
Qed.


(** ** The trace only grows *)






Section DetectorProperties.

Variable welch : matrix -> Q -> vec * matrix.
Variable sosfiltfilt_highpass : Q -> matrix -> matrix.
Variable np_sqrt : Q -> Q.
Variable get_random_data_chunks : recording -> gmap string pyval -> list matrix.

Local Abbreviation detect :=
  (detect_bad_channels welch sosfiltfilt_highpass np_sqrt get_random_data_chunks).

(** C2. With [psd_hf_threshold] omitted the detector evaluates
    [1.4 if fs < 5000 else 0.02], but [fs] is bound neither in the function
    nor in the module: for every recording the call ends in
    [NameError: name 'fs' is not defined] before anything else happens, so
    neither 1.4 nor 0.02 is ever used. *)
Theorem default_threshold_unbound_name (rec : recording) (sim : Q * Q)
    (kwargs : option (gmap string pyval)) (tr : list event) :
  detect rec None sim kwargs tr = (Err (NameError "fs"), tr).
Proof. reflexivity. Qed.

(** With a threshold supplied, a request for concatenation is rejected
    before the sampler is called: the trace is untouched. *)
Lemma concatenated_rejected_with_threshold (rec : recording) (thr : Q)
    (sim : Q * Q) (user : gmap string pyval) (v : pyval) (tr : list event) :
  user !! "concatenated"%string = Some v ->
  truthy v = true ->
  detect rec (Some thr) sim (Some user) tr
  = (Err (AttributeError
            "Custom random_chunk_kwargs cannot included data concatenation"), tr).
Proof.
  intros Hv Ht. unfold detect_bad_channels.
  cbn [mbind M_bind lift].
  now rewrite (handle_random_chunk_kwargs_concatenated rec user v Hv Ht).
Qed.

(** C8. For every dictionary whose key "concatenated" is present and
    truthy: called without a threshold (the default) the detector fails
    with the NameError of the unbound [fs] instead of the configuration
    error; called with a threshold it fails with the configuration error
    (AttributeError). In both cases nothing has been sampled or
    classified: the trace is unchanged. *)
Theorem concatenated_request_outcome (rec : recording) (sim : Q * Q)
    (user : gmap string pyval) (v : pyval) (tr : list event) :
  user !! "concatenated"%string = Some v ->
  truthy v = true ->
  detect rec None sim (Some user) tr = (Err (NameError "fs"), tr)
  /\ forall thr : Q,
       detect rec (Some thr) sim (Some user) tr
       = (Err (AttributeError
                 "Custom random_chunk_kwargs cannot included data concatenation"),
          tr).
Proof.
  intros Hv Ht. split; [reflexivity|].
  intros thr. now apply concatenated_rejected_with_threshold with v.
Qed.

(** C9. Called without [random_chunk_kwargs] (the default [None]) the
    detector never reaches the default policy: with a threshold supplied the
    membership test ["concatenated" in None] raises a TypeError before the
    defaults are built, and without one the unbound [fs] raises first; in
    both cases nothing is sampled. Only when a dictionary is supplied, be it
    empty, does the sampler get the default policy (chunk size
    [int(0.3 * fs)], 10 chunks per segment, seed 0, scaled, not
    concatenated). *)
Theorem default_kwargs_none_type_error (rec : recording) (sim : Q * Q)
    (tr : list event) :
  (forall thr : Q,
     detect rec (Some thr) sim None tr
     = (Err (TypeError "argument of type 'NoneType' is not iterable"), tr))
  /\ detect rec None sim None tr = (Err (NameError "fs"), tr)
  /\ handle_random_chunk_kwargs rec (Some ∅)
     = Ok (default_random_chunk_kwargs
             (py_int ((3 # 10) * get_sampling_frequency rec)%Q), false).
Proof.
  split; [reflexivity|]. split; [reflexivity|].
  apply handle_random_chunk_kwargs_empty.
Qed.




Local Abbreviation classify :=
  (detect_bad_channels_ibl welch sosfiltfilt_highpass np_sqrt).

(** C1. On the mean-centred chunk with channels (2,1,-3), (1,2,-3) and
    (-3,0,3) the reference is (1,1,-3), whose mean is not zero. The
    cross-correlation path, which centres the reference before
    normalising by its zero-lag autocorrelation 32/3, yields 9/8 for the
    first channel; the direct formula, which divides by the sum of squares
    11, yields 12/11. They differ by 3/88, more than 1e-2, so the
    assertion of [channel_similarity] fails and the classifier raises. *)
Theorem similarity_paths_disagree (fs thr : Q) (sim : Q * Q) (flag : bool) :
  let raw := [[2; 1; -3]; [1; 2; 0]; [-3; -3; 3]]%Q in
  let ref := median_axis1 raw in
  map (map Qred) (mean_center raw) = raw
  /\ ref = [1; 1; -3]%Q
  /\ Qred (nth 0 (fxcor (map (fun r => r - np_mean ref) ref)
                        (map (fun r => r - np_mean ref) ref)) 0)%Q = (32 # 3)%Q
  /\ Qred (np_sum (vsquare ref)) = 11%Q
  /\ map Qred (nxcor raw ref) = [9 # 8; 9 # 8; - 9 # 8]%Q
  /\ map Qred (direct_similarity raw ref) = [12 # 11; 12 # 11; - 12 # 11]%Q
  /\ allclose (nxcor raw ref) (direct_similarity raw ref) (1 # 100) = false
  /\ channel_similarity raw = Err AssertionError
  /\ classify raw fs thr sim flag = Err AssertionError.
Proof. repeat split. Qed.

Lemma detect_bad_channels_ibl_labels (raw : matrix) (fs thr : Q) (sim : Q * Q)
    (flag : bool) (labels : list Z) (feats : xfeats) :
  classify raw fs thr sim flag = Ok (labels, feats) ->
  labels = make_recommendation (num_cols raw) feats thr sim.
Proof.
  unfold detect_bad_channels_ibl, mbind, result_bind.
  destruct (channel_similarity (mean_center raw)) as [xcor|]; [|discriminate].
  destruct (negb (allclose xcor _ _)); [discriminate|].
  destruct (welch _ fs) as [fscale psd].
  destruct (channel_similarity _) as [xcorf|]; [|discriminate].
  destruct (detrend xcor 11) as [hf|]; [|discriminate].
  destruct (detrend xcorf 11) as [lf|]; [|discriminate].
  intros H. now inversion H.
Qed.

(** C4. Whenever the single-chunk classifier returns, a channel whose
    [xcor_hf] is below the low similarity threshold (dead) and whose
    [psd_hf] is above the PSD threshold or whose [xcor_hf] is above the
    high similarity threshold (noisy) carries the label 2. *)
Theorem noisy_overrides_dead (raw : matrix) (fs thr low high : Q) (flag : bool)
    (labels : list Z) (feats : xfeats) (i : nat) (x p : Q) :
  classify raw fs thr (low, high) flag = Ok (labels, feats) ->
  (i < num_cols raw)%nat ->
  xcor_hf feats !! i = Some x ->
  psd_hf feats !! i = Some p ->
  (x < low)%Q ->
  (thr < p \/ high < x)%Q ->
  labels !! i = Some 2 /\ labels !! i <> Some 1.
Proof.
  intros Hrun Hi Hx Hp Hdead Hnoisy.
  apply detect_bad_channels_ibl_labels in Hrun as ->.
  rewrite (make_recommendation_noisy_wins _ _ _ _ _ _ x p) by assumption.
  now split.
Qed.

End DetectorProperties.

(** * Further properties *)

(** ** Labels *)

Lemma Forall_assign_at (P : Z -> Prop) (idx : list nat) (v : Z) :
  P v -> forall labels, Forall P labels -> Forall P (assign_at idx v labels).
Proof.
  intros Hv. unfold assign_at. induction idx as [|j idx IH]; intros labels Hl; [exact Hl|].
  cbn [foldl]. apply IH. apply Forall_insert; assumption.
Qed.

Lemma make_recommendation_range (nc : nat) (feats : xfeats) (thr : Q) (sim : Q * Q) :
  length (make_recommendation nc feats thr sim) = nc
  /\ Forall (fun z => 0 <= z <= 3) (make_recommendation nc feats thr sim).
Proof.
  unfold make_recommendation. split.
  - now rewrite !length_assign_at, length_replicate.
  - repeat (apply Forall_assign_at; [lia|]).
    apply Forall_replicate. lia.
Qed.

(** The recommendation at one channel, spelled out: noisy overrides dead,
    dead overrides outside, and a channel is outside only when every channel
    from it to the end of the probe is below -0.75 on [xcor_lf]. *)
Theorem label_priority (nc : nat) (feats : xfeats) (thr low high : Q)
    (i : nat) (x p : Q) :
  (i < nc)%nat ->
  length (xcor_lf feats) = nc ->
  xcor_hf feats !! i = Some x ->
  psd_hf feats !! i = Some p ->
  let noisy := (thr < p \/ high < x)%Q in
  let dead := (x < low)%Q in
  let outside :=
    forall j, (i <= j < nc)%nat ->
              exists y, xcor_lf feats !! j = Some y /\ (y < - (3 # 4))%Q in
  let label := make_recommendation nc feats thr (low, high) !! i in
  (noisy -> label = Some 2)
  /\ (~ noisy -> dead -> label = Some 1)
  /\ (~ noisy -> ~ dead -> outside -> label = Some 3)
  /\ (~ noisy -> ~ dead -> ~ outside -> label = Some 0).
Proof.
  intros Hi Hlf Hx Hp noisy dead outside label.
  set (inoisy := np_where (zip_with orb
                   (map (fun q => Qltb thr q) (psd_hf feats))
                   (map (fun q => Qltb high q) (xcor_hf feats)))).
  set (idead := np_where (map (fun q => Qltb q low) (xcor_hf feats))).
  set (mask := map (fun q => Qltb q (- (3 # 4))) (xcor_lf feats)).
  set (iout := outside_channels nc (np_where mask)).
  assert (Hlabel : label = assign_at inoisy 2
                             (assign_at idead 1
                                (assign_at iout 3 (replicate nc 0))) !! i)
    by reflexivity.
  assert (Hnoisy : i ∈ inoisy <-> noisy).
  { unfold inoisy, noisy. rewrite elem_of_np_where, lookup_zip_with.
    rewrite !lookup_List_map, Hp. cbn. rewrite Hx. cbn.
    rewrite <- !Qltb_lt. split.
    - intros H. injection H as H. now apply orb_true_iff in H.
    - intros H. f_equal. now apply orb_true_iff. }
  assert (Hdead : i ∈ idead <-> dead).
  { unfold idead, dead. rewrite elem_of_np_where, lookup_List_map, Hx. cbn.
    rewrite <- Qltb_lt. split; [congruence|intros ->; reflexivity]. }
  assert (Hout : i ∈ iout <-> outside).
  { unfold iout, outside. assert (Hm : length mask = nc)
      by (unfold mask; now rewrite length_map).
    rewrite <- Hm at 1. rewrite outside_channels_spec, Hm. split.
    - intros [_ Hall] j Hj. specialize (Hall j Hj). unfold mask in Hall.
      rewrite lookup_List_map in Hall.
      destruct (xcor_lf feats !! j) as [y|]; [|discriminate]. cbn in Hall.
      exists y. split; [reflexivity|]. apply Qltb_lt. congruence.
    - intros Hall. split; [exact Hi|]. intros j Hj.
      destruct (Hall j Hj) as [y [Hy Hlt]]. unfold mask.
      rewrite lookup_List_map, Hy. cbn. f_equal. now apply Qltb_lt. }
  assert (Hlen0 : length (replicate nc 0) = nc) by apply length_replicate.
  rewrite Hlabel. split; [|split; [|split]].
  - intros Hn. apply lookup_assign_at_in; [now apply Hnoisy|].
    now rewrite !length_assign_at, Hlen0.
  - intros Hn Hd. rewrite lookup_assign_at_notin by (rewrite Hnoisy; exact Hn).
    apply lookup_assign_at_in; [now apply Hdead|].
    now rewrite length_assign_at, Hlen0.
  - intros Hn Hd Ho. rewrite lookup_assign_at_notin by (rewrite Hnoisy; exact Hn).
    rewrite lookup_assign_at_notin by (rewrite Hdead; exact Hd).
    apply lookup_assign_at_in; [now apply Hout|]. now rewrite Hlen0.
  - intros Hn Hd Ho. rewrite lookup_assign_at_notin by (rewrite Hnoisy; exact Hn).
    rewrite lookup_assign_at_notin by (rewrite Hdead; exact Hd).
    rewrite lookup_assign_at_notin by (rewrite Hout; exact Ho).
    now apply lookup_replicate_2.
Qed.

(** ** Detrend *)

(** [detrend] fails on an empty vector (IndexError at [x[0]]) and on an even
    window (ValueError of the median filter); otherwise it returns a vector
    of the length of its input. *)
Theorem detrend_outcome (x : list Q) (w : nat) :
  (x = [] -> detrend x w = Err IndexError)
  /\ (x <> [] -> Nat.odd w = false ->
      detrend x w = Err (ValueError "Each element of kernel_size should be odd."))
  /\ (x <> [] -> Nat.odd w = true ->
      exists out, detrend x w = Ok out /\ length out = length x).
Proof.
  split; [intros ->; reflexivity|].
  assert (Hends : x <> [] -> exists a b, head x = Some a /\ last x = Some b).
  { intros Hne. destruct x as [|a x]; [contradiction|].
    destruct (last_is_Some (a :: x)) as [_ Hl]. destruct (Hl Hne) as [b Hb].
    now exists a, b. }
  split.
  - intros Hne Hw. destruct (Hends Hne) as [a [b [Ha Hb]]].
    unfold detrend. rewrite Ha, Hb. unfold medfilt. now rewrite Hw.
  - intros Hne Hw. destruct (Hends Hne) as [a [b [Ha Hb]]].
    destruct (detrend_structure x w a b Ha Hb Hw) as [_ [Hlen Hd]].
    eexists. split; [exact Hd|].
    unfold vsub. rewrite length_zip_with, Hlen. lia.
Qed.




Lemma length_insert_sorted (x : Q) (l : list Q) :
  length (insert_sorted x l) = S (length l).
Proof.
  induction l as [|y l IH]; [reflexivity|].
  cbn [insert_sorted]. destruct (Qle_bool x y); cbn; [reflexivity|]. now rewrite IH.
Qed.

Lemma length_np_sort (l : list Q) : length (np_sort l) = length l.
Proof.
  unfold np_sort. induction l as [|x l IH]; [reflexivity|].
  cbn [foldr]. now rewrite length_insert_sorted, IH.
Qed.







(** ** Random-chunk keyword arguments *)

(** What a supplied dictionary leads to. It is rejected exactly when it holds
    a truthy "concatenated"; a falsy one (False, 0, None) is accepted.
    An accepted dictionary yields a mapping without the test key, holding
    every default key and every other user entry unchanged. *)
Theorem handle_random_chunk_kwargs_outcome (rec : recording)
    (user : gmap string pyval) :
  let requested :=
    exists v, user !! "concatenated"%string = Some v /\ truthy v = true in
  (requested ->
   handle_random_chunk_kwargs rec (Some user)
   = Err (AttributeError
            "Custom random_chunk_kwargs cannot included data concatenation"))
  /\ (~ requested ->
      exists kwargs flag,
        handle_random_chunk_kwargs rec (Some user) = Ok (kwargs, flag)
        /\ kwargs !! "scale_for_testing"%string = None
        /\ (forall k, k ∈ ["return_scaled"; "num_chunks_per_segment"; "chunk_size";
                           "concatenated"; "seed"]%string ->
                      is_Some (kwargs !! k))
        /\ (forall k v, k <> "scale_for_testing"%string ->
                        user !! k = Some v -> kwargs !! k = Some v)).
Proof.
  intros requested. split.
  - intros [v [Hv Ht]]. now apply handle_random_chunk_kwargs_concatenated with v.
  - intros Hno.
    assert (Hc : forall v, user !! "concatenated"%string = Some v -> truthy v = false).
    { intros v Hv. destruct (truthy v) eqn:Ht; [|reflexivity].
      exfalso. apply Hno. now exists v. }
    rewrite handle_random_chunk_kwargs_merge by exact Hc.
    set (merged := user ∪ default_random_chunk_kwargs _).
    assert (Hkw : exists kwargs flag,
               handle_test_case merged = (kwargs, flag)
               /\ kwargs = delete "scale_for_testing"%string merged).
    { unfold handle_test_case. case_bool_decide as Hp; eexists _, _;
        (split; [reflexivity|]); [reflexivity|].
      symmetry. apply delete_id. now apply eq_None_not_Some. }
    destruct Hkw as [kwargs [flag [Hh ->]]]. rewrite Hh.
    eexists _, _. split; [reflexivity|]. split; [apply lookup_delete_eq|]. split.
    + intros k Hk.
      assert (Hne : "scale_for_testing"%string <> k).
      { repeat (apply elem_of_cons in Hk as [->|Hk]); try discriminate.
        now apply elem_of_nil in Hk. }
      rewrite lookup_delete_ne by exact Hne.
      unfold merged. apply lookup_union_is_Some. right.
      repeat (apply elem_of_cons in Hk as [->|Hk]);
        try (eexists; reflexivity). now apply elem_of_nil in Hk.
    + intros k v Hne Hv. rewrite lookup_delete_ne by congruence.
      unfold merged. now apply lookup_union_Some_l.
Qed.

(** ** Voting across chunks *)

Lemma count_of_two (m v : Z) (l : list Z) :
  m <> v -> (count_of m l + count_of v l <= length l)%nat.
Proof.
  intros Hne. unfold count_of. induction l as [|x l IH]; [cbn; lia|].
  rewrite !filter_cons. cbn [length].
  destruct (decide (x = m)) as [Hm|Hm], (decide (x = v)) as [Hv|Hv];
    cbn [length]; (lia || congruence).
Qed.

(** A label that more than half of the chunks give to a channel is its
    final flag. *)
Theorem majority_label_wins (nc i : nat) (channel_labels : list (list Z)) (v : Z) :
  (i < nc)%nat ->
  (length channel_labels < 2 * count_of v (label_row i channel_labels))%nat ->
  mode_axis1 nc channel_labels !! i = Some (Some v).
Proof.
  intros Hi Hmaj. rewrite lookup_mode_axis1 by exact Hi.
  set (row := label_row i channel_labels) in *.
  assert (Hlen : length row = length channel_labels) by apply length_label_row.
  destruct (stats_mode_spec row) as [m [Hm [_ [Hmax _]]]].
  { intros Hrow. rewrite Hrow in Hmaj. cbn in Hmaj. lia. }
  rewrite Hm. do 2 f_equal. destruct (decide (m = v)) as [->|Hne]; [reflexivity|].
  pose proof (count_of_two m v row Hne). specialize (Hmax v). lia.
Qed.

(** A channel that at least half of the chunks label good is flagged good:
    ties go to the smallest label. *)
Theorem good_in_half_of_chunks (nc i : nat) (channel_labels : list (list Z)) :
  (i < nc)%nat ->
  channel_labels <> [] ->
  Forall (fun z => 0 <= z) (label_row i channel_labels) ->
  (length channel_labels <= 2 * count_of 0 (label_row i channel_labels))%nat ->
  mode_axis1 nc channel_labels !! i = Some (Some 0).
Proof.
  intros Hi Hne Hpos Hhalf. rewrite lookup_mode_axis1 by exact Hi.
  set (row := label_row i channel_labels) in *.
  assert (Hlen : length row = length channel_labels) by apply length_label_row.
  destruct (stats_mode_spec row) as [m [Hm [Hin [Hmax Hmin]]]].
  { intros Hrow. rewrite Hrow in Hlen. destruct channel_labels; [contradiction|discriminate]. }
  rewrite Hm. do 2 f_equal. destruct (decide (m = 0)) as [->|Hm0]; [reflexivity|].
  pose proof (count_of_two m 0 row Hm0). specialize (Hmax 0).
  assert (Htie : count_of 0 row = count_of m row) by lia.
  specialize (Hmin 0 Htie).
  rewrite Forall_forall in Hpos. specialize (Hpos m Hin). lia.
Qed.

(** ** Aggregation *)

Lemma take_ids_spec (ids : list string) (idx : list nat) :
  forall out,
    take_ids ids idx = Ok out ->
    length out = length idx
    /\ forall k i, idx !! k = Some i -> out !! k = ids !! i /\ (i < length ids)%nat.
Proof.
  unfold take_ids. induction idx as [|j idx IH]; intros out Hout.
  - cbn in Hout. injection Hout as <-. split; [reflexivity|]. intros k i Hk. discriminate.
  - cbn [foldr] in Hout. unfold mbind at 1, result_bind at 1 in Hout.
    destruct (foldr _ _ idx) as [rest|]; [|discriminate].
    destruct (ids !! j) as [x|] eqn:Hj; [|discriminate].
    injection Hout as <-. destruct (IH rest eq_refl) as [Hlen Hall].
    split; [cbn; now rewrite Hlen|].
    intros [|k] i Hk.
    + cbn in Hk. injection Hk as <-. split; [now rewrite Hj|].
      now apply lookup_lt_Some in Hj.
    + cbn in Hk. now apply Hall.
Qed.

Lemma take_ids_error (ids : list string) (idx : list nat) (e : exn) :
  take_ids ids idx = Err e ->
  e = IndexError /\ Exists (fun i => (length ids <= i)%nat) idx.
Proof.
  unfold take_ids. induction idx as [|j idx IH]; intros Herr; [discriminate|].
  cbn [foldr] in Herr. unfold mbind at 1, result_bind at 1 in Herr.
  destruct (foldr _ _ idx) as [rest|e'].
  - destruct (ids !! j) as [x|] eqn:Hj; [discriminate|].
    injection Herr as <-. split; [reflexivity|].
    apply Exists_cons_hd. now apply lookup_ge_None in Hj.
  - injection Herr as <-. destruct (IH eq_refl) as [He Hex].
    split; [exact He|]. now apply Exists_cons_tl.
Qed.

(** The pieces of a returned result fit together: one flag per channel, the
    bad indices are the ascending positions of the non-zero flags, the bad
    identifiers are the recording's identifiers at those positions, and the
    trace gains the warning, and only it, when the guard on the bad count
    holds. *)
Theorem aggregate_result_consistent (rec : recording) (channel_labels : list (list Z))
    (tr tr' : list event) (bad_inds : list nat) (bad_ids : list string)
    (flags : list (option Z)) :
  aggregate rec channel_labels tr = (Ok (bad_inds, bad_ids, flags), tr') ->
  length flags = get_num_channels rec
  /\ StronglySorted lt bad_inds
  /\ (forall i, i ∈ bad_inds
                <-> exists f, flags !! i = Some f /\ flag_is_bad f = true)
  /\ length bad_ids = length bad_inds
  /\ (forall k i, bad_inds !! k = Some i ->
                  bad_ids !! k = get_channel_ids rec !! i
                  /\ (i < length (get_channel_ids rec))%nat)
  /\ tr' = tr ++ (if too_many_bad (length bad_inds) (get_num_channels rec)
                  then [EvWarn warning_text] else []).
Proof.
  unfold aggregate, mbind, M_bind, lift.
  set (fl := mode_axis1 (get_num_channels rec) channel_labels).
  set (inds := np_where (map flag_is_bad fl)).
  destruct (take_ids (get_channel_ids rec) inds) as [ids|] eqn:Hids; [|discriminate].
  destruct (take_ids_spec _ _ _ Hids) as [Hlen Hall].
  assert (Hres : forall t, (Ok (inds, ids, fl), t) = (Ok (bad_inds, bad_ids, flags), tr') ->
                  inds = bad_inds /\ ids = bad_ids /\ fl = flags /\ t = tr')
    by (intros t H; now inversion H).
  assert (Hmain : forall t, (Ok (inds, ids, fl), t) = (Ok (bad_inds, bad_ids, flags), tr') ->
            t = tr ++ (if too_many_bad (length inds) (get_num_channels rec)
                       then [EvWarn warning_text] else []) ->
            length flags = get_num_channels rec
            /\ StronglySorted lt bad_inds
            /\ (forall i, i ∈ bad_inds
                          <-> exists f, flags !! i = Some f /\ flag_is_bad f = true)
            /\ length bad_ids = length bad_inds
            /\ (forall k i, bad_inds !! k = Some i ->
                            bad_ids !! k = get_channel_ids rec !! i
                            /\ (i < length (get_channel_ids rec))%nat)
            /\ tr' = tr ++ (if too_many_bad (length bad_inds) (get_num_channels rec)
                            then [EvWarn warning_text] else [])).
  { intros t H Ht. destruct (Hres t H) as [<- [<- [<- <-]]].
    split; [unfold fl, mode_axis1; now rewrite length_map, length_seq|].
    split; [apply sorted_where_from|]. split.
    - intros i. unfold inds. rewrite elem_of_np_where, lookup_List_map.
      destruct (fl !! i) as [f|]; cbn.
      + split; [intros H1; exists f; split; congruence|].
        intros [f' [Hf Hb]]. congruence.
      + split; [discriminate|]. intros [f' [Hf _]]. discriminate.
    - split; [exact Hlen|]. split; [exact Hall|exact Ht]. }
  rewrite Hlen. destruct (too_many_bad (length inds) (get_num_channels rec)) eqn:Hw;
    cbn; intros H; apply (Hmain _ H); rewrite ?app_nil_r; reflexivity.
Qed.

(** The aggregation fails only when a bad channel has no identifier, with an
    IndexError and before any warning; with an identifier for every channel
    it always returns. *)
Theorem aggregate_failure (rec : recording) (channel_labels : list (list Z))
    (tr : list event) :
  let bad_inds :=
    np_where (map flag_is_bad (mode_axis1 (get_num_channels rec) channel_labels)) in
  (forall e tr', aggregate rec channel_labels tr = (Err e, tr') ->
                 e = IndexError /\ tr' = tr
                 /\ Exists (fun i => (length (get_channel_ids rec) <= i)%nat) bad_inds)
  /\ ((get_num_channels rec <= length (get_channel_ids rec))%nat ->
      exists out tr', aggregate rec channel_labels tr = (Ok out, tr')).
Proof.
  intros bad_inds. split; [|apply aggregate_returns].
  intros e tr'. unfold aggregate, mbind, M_bind, lift. fold bad_inds.
  destruct (take_ids (get_channel_ids rec) bad_inds) as [ids|e'] eqn:Hids.
  - destruct (too_many_bad _ _); cbn; discriminate.
  - intros H. injection H as <- <-. destruct (take_ids_error _ _ _ Hids) as [He Hex].
    now repeat split.
Qed.

(** ** Shapes *)

Lemma length_vsub (a b : list Q) :
  length (vsub a b) = Nat.min (length a) (length b).
Proof.
  unfold vsub. revert b. induction a as [|x a IH]; intros [|y b]; cbn; [reflexivity..|].
  now rewrite IH.
Qed.

Lemma num_cols_mean_center (m : list (list Q)) : num_cols (mean_center m) = num_cols m.
Proof.
  unfold mean_center, sub_row. destruct m as [|row m]; [reflexivity|].
  cbn [map num_cols]. rewrite length_vsub.
  unfold mean_axis0, columns. rewrite !length_map, length_seq. cbn [num_cols]. lia.
Qed.

Lemma length_nxcor (x : list (list Q)) (ref : list Q) : length (nxcor x ref) = num_cols x.
Proof.
  unfold nxcor, columns. now rewrite !length_map, length_seq, num_cols_mean_center.
Qed.

Lemma channel_similarity_length (raw : list (list Q)) (xcor : list Q) :
  channel_similarity raw = Ok xcor -> length xcor = num_cols raw.
Proof.
  unfold channel_similarity. destruct (allclose _ _ _); [|discriminate].
  intros H. injection H as <-. apply length_nxcor.
Qed.

Lemma ends_of_nonempty (x : list Q) :
  x <> [] -> exists a b, head x = Some a /\ last x = Some b.
Proof.
  intros Hne. destruct x as [|a x]; [contradiction|].
  destruct (last_is_Some (a :: x)) as [_ Hl]. destruct (Hl Hne) as [b Hb].
  now exists a, b.
Qed.

Lemma detrend_length (x out : list Q) (w : nat) :
  detrend x w = Ok out -> length out = length x.
Proof.
  intros Hd. destruct (decide (x = [])) as [->|Hne]; [discriminate|].
  destruct (ends_of_nonempty x Hne) as [a [b [Ha Hb]]].
  destruct (Nat.odd w) eqn:Hw.
  - destruct (detrend_structure x w a b Ha Hb Hw) as [_ [Hlen Hd']].
    rewrite Hd' in Hd.
    assert (Hinj : forall y z : list Q, Ok y = Ok z -> y = z)
      by (intros y z H; now injection H).
    apply Hinj in Hd. rewrite <- Hd, length_vsub, Hlen. lia.
  - unfold detrend in Hd. rewrite Ha, Hb in Hd.
    unfold medfilt in Hd. rewrite Hw in Hd. discriminate.
Qed.

(** ** The chunk loop *)

Lemma set_column_ok (nc i : nat) (labels : list Z) (cl cl' : list (list Z)) :
  set_column nc i labels cl = Ok cl' ->
  (i < length cl)%nat
  /\ length cl' = length cl
  /\ (Forall (fun z => 0 <= z <= 3) labels ->
      Forall (Forall (fun z => 0 <= z <= 3)) cl ->
      Forall (Forall (fun z => 0 <= z <= 3)) cl').
Proof.
  unfold set_column. destruct (length cl <=? i)%nat eqn:Hi; [discriminate|].
  apply Nat.leb_gt in Hi.
  destruct (length labels =? nc)%nat.
  - intros H. injection H as <-. split; [exact Hi|]. split; [apply length_insert|].
    intros Hl Hcl. now apply Forall_insert.
  - destruct labels as [|x [|y labels]]; try discriminate.
    intros H. injection H as <-. split; [exact Hi|]. split; [apply length_insert|].
    intros Hl Hcl. apply Forall_insert; [exact Hcl|].
    apply Forall_replicate. now inversion Hl.
Qed.

Lemma mode_axis1_range (nc : nat) (cl : list (list Z)) :
  Forall (Forall (fun z => 0 <= z <= 3)) cl ->
  Forall (fun f => match f with Some z => 0 <= z <= 3 | None => True end)
         (mode_axis1 nc cl).
Proof.
  intros Hcl. unfold mode_axis1. apply Forall_forall. intros f Hf.
  apply list_elem_of_In, in_map_iff in Hf as [i [<- _]].
  destruct (stats_mode (label_row i cl)) as [m|] eqn:Hm; [|exact I].
  destruct (decide (label_row i cl = [])) as [He|Hne].
  { rewrite He in Hm. discriminate. }
  destruct (stats_mode_spec _ Hne) as [m' [Hm' [Hin _]]].
  assert (m' = m) as -> by congruence.
  apply list_elem_of_In, in_map_iff in Hin as [col [<- Hcol]].
  rewrite Forall_forall in Hcl. specialize (Hcl col (proj2 (list_elem_of_In _ _) Hcol)).
  destruct (nth_in_or_default i col 0) as [Hn| ->]; [|lia].
  rewrite Forall_forall in Hcl. apply Hcl. now apply list_elem_of_In.
Qed.

Lemma aggregate_error_trace (rec : recording) (cl : list (list Z))
    (tr tr' : list event) (e : exn) :
  aggregate rec cl tr = (Err e, tr') -> tr' = tr.
Proof.
  unfold aggregate, mbind, M_bind, lift.
  destruct (take_ids _ _) as [ids|e'].
  - destruct (too_many_bad _ _); cbn; discriminate.
  - intros H. now inversion H.
Qed.

Lemma aggregate_ok_trace (rec : recording) (cl : list (list Z))
    (tr tr' : list event) (bad_inds : list nat) (bad_ids : list string)
    (flags : list (option Z)) :
  aggregate rec cl tr = (Ok (bad_inds, bad_ids, flags), tr') ->
  length flags = get_num_channels rec
  /\ tr' = tr ++ (if too_many_bad (length bad_inds) (get_num_channels rec)
                  then [EvWarn warning_text] else []).
Proof.
  unfold aggregate, mbind, M_bind, lift.
  set (fl := mode_axis1 (get_num_channels rec) cl).
  set (inds := np_where (map flag_is_bad fl)).
  destruct (take_ids (get_channel_ids rec) inds) as [ids|] eqn:Hids; [|discriminate].
  destruct (take_ids_spec _ _ _ Hids) as [Hlen _]. rewrite Hlen.
  assert (Hfl : length fl = get_num_channels rec)
    by (unfold fl, mode_axis1; now rewrite length_map, length_seq).
  destruct (too_many_bad (length inds) (get_num_channels rec)) eqn:Hw; cbn;
    intros H; inversion H; subst; rewrite Hw, ?app_nil_r; now split.
Qed.

Section DetectorRuns.

Variable welch : matrix -> Q -> vec * matrix.
Variable sosfiltfilt_highpass : Q -> matrix -> matrix.
Variable np_sqrt : Q -> Q.
Variable get_random_data_chunks : recording -> gmap string pyval -> list matrix.

Local Abbreviation classify :=
  (detect_bad_channels_ibl welch sosfiltfilt_highpass np_sqrt).
Local Abbreviation classify_all :=
  (classify_chunks welch sosfiltfilt_highpass np_sqrt).
Local Abbreviation detect :=
  (detect_bad_channels welch sosfiltfilt_highpass np_sqrt get_random_data_chunks).

Lemma classify_features (raw : matrix) (fs thr : Q) (sim : Q * Q) (flag : bool)
    (labels : list Z) (feats : xfeats) :
  classify raw fs thr sim flag = Ok (labels, feats) ->
  ind feats = seq 0 (num_cols raw)
  /\ rms_raw feats = rms np_sqrt (mean_center raw)
  /\ (exists xcor, channel_similarity (mean_center raw) = Ok xcor
                   /\ detrend xcor 11 = Ok (xcor_hf feats))
  /\ (exists m, psd_hf feats = mean_axis0_of (num_cols raw) m).
Proof.
  unfold detect_bad_channels_ibl, mbind, result_bind.
  destruct (channel_similarity (mean_center raw)) as [xcor|] eqn:Hxcor; [|discriminate].
  destruct (negb (allclose xcor _ _)); [discriminate|].
  destruct (welch _ fs) as [fscale psd].
  destruct (channel_similarity (sosfiltfilt_highpass fs (mean_center raw)))
    as [xcorf|]; [|discriminate].
  destruct (detrend xcor 11) as [hf|] eqn:Hhf; [|discriminate].
  destruct (detrend xcorf 11) as [lf|]; [|discriminate].
  intros H. inversion H; subst; clear H. cbn.
  split; [reflexivity|]. split; [reflexivity|]. split; eauto.
Qed.

(** Whatever the classifier returns has one entry per channel of the chunk,
    in the label vector and in the features computed from the chunk itself,
    and every label is one of 0, 1, 2, 3. *)
Theorem classifier_shapes (raw : matrix) (fs thr : Q) (sim : Q * Q) (flag : bool)
    (labels : list Z) (feats : xfeats) :
  classify raw fs thr sim flag = Ok (labels, feats) ->
  length labels = num_cols raw
  /\ Forall (fun z => 0 <= z <= 3) labels
  /\ ind feats = seq 0 (num_cols raw)
  /\ length (rms_raw feats) = num_cols raw
  /\ length (xcor_hf feats) = num_cols raw
  /\ length (psd_hf feats) = num_cols raw.
Proof.
  intros Hrun.
  destruct (classify_features _ _ _ _ _ _ _ Hrun)
    as [Hind [Hrms [[xcor [Hxcor Hhf]] [m Hpsd]]]].
  apply detect_bad_channels_ibl_labels in Hrun as ->.
  destruct (make_recommendation_range (num_cols raw) feats thr sim) as [Hlen Hrange].
  split; [exact Hlen|]. split; [exact Hrange|]. split; [exact Hind|].
  split; [|split].
  - rewrite Hrms. unfold rms, columns.
    now rewrite !length_map, length_seq, num_cols_mean_center.
  - rewrite (detrend_length _ _ _ Hhf), (channel_similarity_length _ _ Hxcor).
    apply num_cols_mean_center.
  - rewrite Hpsd. unfold mean_axis0_of. now rewrite length_map, length_seq.
Qed.

Lemma classifier_labels_range (raw : matrix) (fs thr : Q) (sim : Q * Q) (flag : bool)
    (labels : list Z) (feats : xfeats) :
  classify raw fs thr sim flag = Ok (labels, feats) ->
  Forall (fun z => 0 <= z <= 3) labels.
Proof.
  intros Hrun. apply detect_bad_channels_ibl_labels in Hrun as ->.
  apply make_recommendation_range.
Qed.

Lemma classify_chunks_ok (rec : recording) (thr : Q) (sim : Q * Q) (flag : bool)
    (chunks : list matrix) :
  forall i cl tr cl' tr',
    classify_all rec thr sim flag i chunks cl tr = (Ok cl', tr') ->
    tr' = tr ++ map EvClassify (seq i (length chunks))
    /\ length cl' = length cl
    /\ (chunks <> [] -> (i + length chunks <= length cl)%nat)
    /\ (Forall (Forall (fun z => 0 <= z <= 3)) cl ->
        Forall (Forall (fun z => 0 <= z <= 3)) cl').
Proof.
  induction chunks as [|c chunks IH]; intros i cl tr cl' tr'; cbn [classify_chunks].
  - intros H. inversion H; subst. cbn. rewrite app_nil_r. now repeat split.
  - unfold mbind at 1, M_bind at 1, emit. cbn beta iota.
    unfold mbind at 1, M_bind at 1, lift at 1. cbn beta iota.
    destruct (classify c (get_sampling_frequency rec) thr sim flag)
      as [[labels feats]|] eqn:Hc; [|discriminate].
    unfold mbind at 1, M_bind at 1, lift at 1. cbn beta iota.
    destruct (set_column (get_num_channels rec) i labels cl) as [cl1|] eqn:Hs;
      [|discriminate].
    intros Hrest. destruct (set_column_ok _ _ _ _ _ Hs) as [Hi [Hlen Hr]].
    destruct (IH _ _ _ _ _ Hrest) as [Htr [Hlen' [Hbound Hr']]].
    pose proof (classifier_labels_range _ _ _ _ _ _ _ Hc) as Hrange.
    split; [|split; [|split]].
    + rewrite Htr, <- app_assoc. reflexivity.
    + congruence.
    + intros _. cbn [length]. destruct chunks as [|c' chunks']; [cbn; lia|].
      specialize (Hbound ltac:(discriminate)). rewrite Hlen in Hbound. lia.
    + intros Hcl. apply Hr', Hr; assumption.
Qed.

Lemma classify_chunks_err (rec : recording) (thr : Q) (sim : Q * Q) (flag : bool)
    (chunks : list matrix) :
  forall i cl tr e tr',
    classify_all rec thr sim flag i chunks cl tr = (Err e, tr') ->
    exists k, (k < length chunks)%nat /\ tr' = tr ++ map EvClassify (seq i (S k)).
Proof.
  induction chunks as [|c chunks IH]; intros i cl tr e tr'; cbn [classify_chunks].
  - discriminate.
  - unfold mbind at 1, M_bind at 1, emit. cbn beta iota.
    unfold mbind at 1, M_bind at 1, lift at 1. cbn beta iota.
    destruct (classify c (get_sampling_frequency rec) thr sim flag)
      as [[labels feats]|].
    + unfold mbind at 1, M_bind at 1, lift at 1. cbn beta iota.
      destruct (set_column (get_num_channels rec) i labels cl) as [cl1|].
      * intros Hrest. destruct (IH _ _ _ _ _ Hrest) as [k [Hk Htr]].
        exists (S k). split; [cbn; lia|]. rewrite Htr, <- app_assoc. reflexivity.
      * intros H. inversion H; subst. exists 0%nat. split; [cbn; lia|reflexivity].
    + intros H. inversion H; subst. exists 0%nat. split; [cbn; lia|reflexivity].
Qed.

(** The detector, stage by stage. *)
Lemma detect_cases (rec : recording) (psd : option Q) (sim : Q * Q)
    (kwargs : option (gmap string pyval)) (tr : list event) :
  detect rec psd sim kwargs tr
  = match psd with
    | None => (Err (NameError "fs"), tr)
    | Some thr =>
        match handle_random_chunk_kwargs rec kwargs with
        | Err e => (Err e, tr)
        | Ok (kw, flag) =>
            match (v ← py_getitem "num_chunks_per_segment" (Some kw); as_dimension v) with
            | Err e => (Err e, tr ++ [EvSample kw])
            | Ok per_segment =>
                match classify_all rec thr sim flag 0 (get_random_data_chunks rec kw)
                        (replicate (get_num_segments rec * per_segment)
                                   (replicate (get_num_channels rec) 0))
                        (tr ++ [EvSample kw]) with
                | (Ok cl, t) => aggregate rec cl t
                | (Err e, t) => (Err e, t)
                end
            end
        end
    end.
Proof.
  unfold detect_bad_channels. destruct psd as [thr|]; [|reflexivity].
  unfold mbind at 1, M_bind at 1, lift at 1. cbn beta iota.
  unfold mbind at 1, M_bind at 1, lift at 1. cbn beta iota.
  destruct (handle_random_chunk_kwargs rec kwargs) as [[kw flag]|]; [|reflexivity].
  unfold mbind at 1, M_bind at 1, emit. cbn beta iota.
  unfold mbind at 1, M_bind at 1, lift at 1. cbn beta iota.
  destruct (py_getitem "num_chunks_per_segment" (Some kw) ≫= _); [|reflexivity].
  unfold mbind at 1, M_bind at 1.
  destruct (classify_all _ _ _ _ _ _ _ _) as [[cl|e] t]; reflexivity.
Qed.

(** A call that returns a result was given both a threshold and a
    dictionary; it called the sampler once, first, then started the
    classification of every sampled chunk once, in order, and warned at most
    once, last. Every returned flag is nan or one of 0, 1, 2, 3, and there is
    one flag per channel. *)
Theorem detect_success_trace (rec : recording) (psd : option Q) (sim : Q * Q)
    (kwargs : option (gmap string pyval)) (tr tr' : list event)
    (bad_inds : list nat) (bad_ids : list string) (flags : list (option Z)) :
  detect rec psd sim kwargs tr = (Ok (bad_inds, bad_ids, flags), tr') ->
  exists thr user kw flag,
    psd = Some thr
    /\ kwargs = Some user
    /\ handle_random_chunk_kwargs rec (Some user) = Ok (kw, flag)
    /\ tr' = tr ++ EvSample kw
                :: map EvClassify (seq 0 (length (get_random_data_chunks rec kw)))
                ++ (if too_many_bad (length bad_inds) (get_num_channels rec)
                    then [EvWarn warning_text] else [])
    /\ length flags = get_num_channels rec
    /\ Forall (fun f => match f with Some z => 0 <= z <= 3 | None => True end) flags.
Proof.
  rewrite detect_cases. destruct psd as [thr|]; [|discriminate].
  destruct kwargs as [user|]; [|discriminate].
  destruct (handle_random_chunk_kwargs rec (Some user)) as [[kw flag]|] eqn:Hh;
    [|discriminate].
  destruct (py_getitem "num_chunks_per_segment" (Some kw) ≫= _) as [per|];
    [|discriminate].
  destruct (classify_all _ _ _ _ _ _ _ _) as [[cl|e] t] eqn:Hloop; [|discriminate].
  intros Hagg. exists thr, user, kw, flag.
  destruct (classify_chunks_ok _ _ _ _ _ _ _ _ _ _ Hloop) as [Ht [_ [_ Hrange]]].
  destruct (aggregate_ok_trace _ _ _ _ _ _ _ Hagg) as [Hlen Htr].
  pose proof (aggregate_flags _ _ _ _ _ _ _ Hagg) as Hflags.
  split; [reflexivity|]. split; [reflexivity|]. split; [exact Hh|].
  split; [|split].
  - rewrite Htr, Ht, <- !app_assoc. reflexivity.
  - exact Hlen.
  - rewrite Hflags. apply mode_axis1_range, Hrange.
    apply Forall_replicate, Forall_replicate. lia.
Qed.

(** A call that fails never warns, and whatever it did before failing is a
    prefix of the successful course: nothing at all, or the sampler call
    followed by the classification of the first chunks, the last of which
    is the one that failed. *)
Theorem detect_failure_trace (rec : recording) (psd : option Q) (sim : Q * Q)
    (kwargs : option (gmap string pyval)) (tr tr' : list event) (e : exn) :
  detect rec psd sim kwargs tr = (Err e, tr') ->
  tr' = tr
  \/ exists kw k,
       (k <= length (get_random_data_chunks rec kw))%nat
       /\ tr' = tr ++ EvSample kw :: map EvClassify (seq 0 k).
Proof.
  rewrite detect_cases. destruct psd as [thr|]; [|intros H; inversion H; now left].
  destruct (handle_random_chunk_kwargs rec kwargs) as [[kw flag]|];
    [|intros H; inversion H; now left].
  destruct (py_getitem "num_chunks_per_segment" (Some kw) ≫= _) as [per|].
  - destruct (classify_all _ _ _ _ _ _ _ _) as [[cl|e'] t] eqn:Hloop.
    + intros Hagg.
      destruct (classify_chunks_ok _ _ _ _ _ _ _ _ _ _ Hloop) as [Ht _].
      apply aggregate_error_trace in Hagg as ->.
      right. exists kw, (length (get_random_data_chunks rec kw)).
      split; [lia|]. rewrite Ht, <- app_assoc. reflexivity.
    + intros H. inversion H; subst.
      destruct (classify_chunks_err _ _ _ _ _ _ _ _ _ _ Hloop) as [k [Hk Ht]].
      right. exists kw, (S k). split; [lia|]. rewrite Ht, <- app_assoc. reflexivity.
  - intros H. inversion H; subst. right. exists kw, 0%nat. split; [lia|reflexivity].
Qed.

(** A call that returns a result sampled no more chunks than the label
    matrix has columns, that is the number of segments times the entry
    "num_chunks_per_segment" of the merged dictionary; a further chunk would
    end the call in an IndexError. *)
Theorem detect_success_chunk_count (rec : recording) (psd : option Q) (sim : Q * Q)
    (kwargs : option (gmap string pyval)) (tr tr' : list event)
    (out : list nat * list string * list (option Z)) :
  detect rec psd sim kwargs tr = (Ok out, tr') ->
  exists kw flag v per_segment,
    handle_random_chunk_kwargs rec kwargs = Ok (kw, flag)
    /\ kw !! "num_chunks_per_segment"%string = Some v
    /\ as_dimension v = Ok per_segment
    /\ (length (get_random_data_chunks rec kw)
        <= get_num_segments rec * per_segment)%nat.
Proof.
  rewrite detect_cases. destruct psd as [thr|]; [|discriminate].
  destruct (handle_random_chunk_kwargs rec kwargs) as [[kw flag]|]; [|discriminate].
  unfold py_getitem, mbind at 1, result_bind at 1.
  destruct (kw !! "num_chunks_per_segment"%string) as [v|] eqn:Hv; [|discriminate].
  destruct (as_dimension v) as [per|] eqn:Hper; [|discriminate].
  destruct (classify_all _ _ _ _ _ _ _ _) as [[cl|e] t] eqn:Hloop; [|discriminate].
  intros _. exists kw, flag, v, per. repeat split; try assumption.
  destruct (classify_chunks_ok _ _ _ _ _ _ _ _ _ _ Hloop) as [_ [_ [Hbound _]]].
  rewrite length_replicate in Hbound.
  destruct (get_random_data_chunks rec kw) as [|c chunks]; [cbn; lia|].
  specialize (Hbound ltac:(discriminate)). lia.
Qed.

End DetectorRuns.

(** ** Removing channels by standard deviation *)

Lemma In_insert_sorted (x y : Q) (l : list Q) :
  In y (insert_sorted x l) -> y = x \/ In y l.
Proof.
  induction l as [|z l IH]; cbn [insert_sorted].
  - intros [<-|[]]. now left.
  - destruct (Qle_bool x z).
    + intros [<-|H]; [now left|now right].
    + intros [<-|H]; [right; now left|].
      destruct (IH H) as [->|Hin]; [now left|right; now right].
Qed.

Lemma In_np_sort (y : Q) (l : list Q) : In y (np_sort l) -> In y l.
Proof.
  unfold np_sort. induction l as [|x l IH]; cbn [foldr]; [tauto|].
  intros H. apply In_insert_sorted in H as [->|H]; [now left|right; now apply IH].
Qed.

(** The median of values that are all equal to [s] is [s]. *)
Lemma np_median_uniform (l : list Q) (s : Q) :
  l <> [] -> Forall (fun x => x == s)%Q l -> (np_median l == s)%Q.
Proof.
  intros Hne Hall.
  assert (Hnth : forall i, (i < length l)%nat -> (nth i (np_sort l) 0 == s)%Q).
  { intros i Hi. rewrite Forall_forall in Hall. apply Hall, list_elem_of_In, In_np_sort.
    apply nth_In. now rewrite length_np_sort. }
  assert (Hpos : (0 < length l)%nat) by (destruct l; [contradiction|cbn; lia]).
  unfold np_median. destruct (Nat.odd (length l)) eqn:Hodd.
  - apply Hnth. apply Nat.div_lt; lia.
  - assert (Hhalf : (length l / 2 < length l)%nat) by (apply Nat.div_lt; lia).
    rewrite (Hnth (length l / 2 - 1)%nat) by lia.
    rewrite (Hnth (length l / 2)%nat) by lia. field.
Qed.

Lemma where_from_all_true (mask : list bool) :
  Forall (fun b => b = true) mask ->
  forall start, where_from start mask = seq start (length mask).
Proof.
  induction 1 as [|b mask -> _ IH]; intros start; [reflexivity|].
  cbn. now rewrite IH.
Qed.

Lemma where_from_all_false (mask : list bool) :
  Forall (fun b => b = false) mask ->
  forall start, where_from start mask = [].
Proof.
  induction 1 as [|b mask -> _ IH]; intros start; [reflexivity|].
  cbn. apply IH.
Qed.

(** When every channel has the same standard deviation [s], either every
    channel is kept or none is, according to whether [s < bad_threshold * s];
    in particular none is kept when [s] is zero (a silent recording),
    whatever the threshold, or when the threshold is at most 1. *)
Theorem uniform_std_all_or_none (np_sqrt : Q -> Q) (random_data : list (list Q))
    (bad_threshold s : Q) :
  Forall (fun c => np_std np_sqrt c == s)%Q (columns random_data) ->
  ((s < bad_threshold * s)%Q ->
   keep_inds np_sqrt random_data bad_threshold = seq 0 (num_cols random_data))
  /\ (~ (s < bad_threshold * s)%Q ->
      keep_inds np_sqrt random_data bad_threshold = []).
Proof.
  intros Hall. unfold keep_inds.
  set (stds := map (np_std np_sqrt) (columns random_data)).
  assert (Hstds : Forall (fun x => x == s)%Q stds).
  { unfold stds. apply Forall_forall. intros x Hx.
    apply list_elem_of_In, in_map_iff in Hx as [c [<- Hc]].
    rewrite Forall_forall in Hall. now apply Hall, list_elem_of_In. }
  assert (Hlen : length stds = num_cols random_data).
  { unfold stds, columns. now rewrite !length_map, length_seq. }
  destruct (decide (stds = [])) as [He|Hne].
  { rewrite He in *. cbn in Hlen. rewrite <- Hlen. now split. }
  pose proof (np_median_uniform stds s Hne Hstds) as Hmed.
  assert (Hcmp : forall x, (x == s)%Q ->
            ((x < bad_threshold * np_median stds)%Q <-> (s < bad_threshold * s)%Q)).
  { intros x Hx. rewrite Hx, Hmed. reflexivity. }
  split; intros Hs.
  - unfold np_where. rewrite where_from_all_true.
    + now rewrite length_map, Hlen.
    + apply Forall_forall. intros b Hb.
      apply list_elem_of_In, in_map_iff in Hb as [x [<- Hx]].
      apply Qltb_lt, Hcmp; [|exact Hs].
      rewrite Forall_forall in Hstds. now apply Hstds, list_elem_of_In.
  - unfold np_where. apply where_from_all_false.
    apply Forall_forall. intros b Hb.
    apply list_elem_of_In, in_map_iff in Hb as [x [<- Hx]].
    apply not_true_is_false. rewrite Qltb_lt, Hcmp; [exact Hs|].
    rewrite Forall_forall in Hstds. now apply Hstds, list_elem_of_In.
Qed.


(** ** Similarity: when the two paths agree *)














(** * Instances

    The statements above, run on concrete data. Where the detector needs
    its external routines, the Welch estimate is a fixed one-bin spectrum
    with power on the first channel only, the high-pass filter is the
    identity and the sampler returns no chunk. *)


Lemma mode_aggregation_witness :
  let rec := {| get_sampling_frequency := 30000;
                get_num_channels := 1;
                get_num_segments := 1;
                get_channel_ids := ["ch0"%string] |} in
  (0 < get_num_channels rec)%nat
  /\ [[0]; [0]; [1]] <> []
  /\ exists m,
       mode_axis1 (get_num_channels rec) [[0]; [0]; [1]] !! 0%nat = Some (Some m)
       /\ m ∈ label_row 0 [[0]; [0]; [1]].
Proof.
  intros rec. split; [cbn; lia|]. split; [discriminate|].
  destruct (mode_aggregation rec [[0]; [0]; [1]] 0%nat) as [[m [Hm [Hin _]]] _];
    [cbn; lia | discriminate |].
  exists m. now split.
Defined.

Lemma concatenated_request_outcome_witness :
  let rec := {| get_sampling_frequency := 30000;
                get_num_channels := 3;
                get_num_segments := 1;
                get_channel_ids := ["ch0"; "ch1"; "ch2"]%string |} in
  let user : gmap string pyval := {[ "concatenated"%string := PyBool true ]} in
  let sampler := fun (_ : recording) (_ : gmap string pyval) => @nil (list (list Q)) in
  let welch := fun (_ : list (list Q)) (fs : Q) => ([fs], [[1; 0; 0]]%Q) in
  let highpass := fun (_ : Q) (m : list (list Q)) => m in
  user !! "concatenated"%string = Some (PyBool true)
  /\ truthy (PyBool true) = true
  /\ detect_bad_channels welch highpass (fun q => q) sampler rec None (-(1 # 2), 1)%Q
       (Some user) []
     = (Err (NameError "fs"), [])
  /\ detect_bad_channels welch highpass (fun q => q) sampler rec (Some (2 # 100))
       (-(1 # 2), 1)%Q (Some user) []
     = (Err (AttributeError
               "Custom random_chunk_kwargs cannot included data concatenation"), []).
Proof.
  intros rec user sampler welch highpass.
  split; [reflexivity|]. split; [reflexivity|].
  destruct (concatenated_request_outcome welch highpass (fun q => q) sampler rec
              (-(1 # 2), 1)%Q user (PyBool true) [] eq_refl eq_refl) as [Hnone Hsome].
  split; [exact Hnone | exact (Hsome (2 # 100))].
Defined.


Lemma noisy_overrides_dead_witness :
  let welch := fun (_ : list (list Q)) (fs : Q) => ([fs], [[1; 0; 0]]%Q) in
  let highpass := fun (_ : Q) (m : list (list Q)) => m in
  let raw := [[1; 1; 1]; [-1; -1; -1]]%Q in
  exists labels feats x p,
    detect_bad_channels_ibl welch highpass (fun q => q) raw 30000 (1 # 2) (1, 2)%Q false
    = Ok (labels, feats)
    /\ (0 < num_cols raw)%nat
    /\ xcor_hf feats !! 0%nat = Some x
    /\ psd_hf feats !! 0%nat = Some p
    /\ (x < 1)%Q
    /\ (1 # 2 < p \/ 2 < x)%Q
    /\ labels !! 0%nat = Some 2
    /\ labels !! 0%nat <> Some 1.
Proof.
  intros welch highpass raw. do 4 eexists.
  split; [vm_compute; reflexivity|].
  split; [cbn; lia|].
  split; [vm_compute; reflexivity|].
  split; [vm_compute; reflexivity|].
  split; [vm_compute; reflexivity|].
  split; [left; vm_compute; reflexivity|].
  eapply (noisy_overrides_dead welch highpass (fun q => q) raw 30000 (1 # 2) 1 2 false).
  - vm_compute; reflexivity.
  - cbn; lia.
  - vm_compute; reflexivity.
  - vm_compute; reflexivity.
  - vm_compute; reflexivity.
  - left; vm_compute; reflexivity.
Defined.

Lemma label_priority_witness :
  let feats := {| ind := [0; 1]%nat;
                  rms_raw := [1; 1]%Q;
                  xcor_hf := [0; -1]%Q;
                  xcor_lf := [0; 0]%Q;
                  psd_hf := [0; 0]%Q |} in
  (1 < 2)%nat
  /\ length (xcor_lf feats) = 2%nat
  /\ xcor_hf feats !! 1%nat = Some (-1)%Q
  /\ psd_hf feats !! 1%nat = Some 0%Q
  /\ make_recommendation 2 feats (1 # 2) (-(1 # 2), 1)%Q !! 1%nat = Some 1.
Proof.
  intros feats. split; [lia|]. split; [reflexivity|]. split; [reflexivity|].
  split; [reflexivity|].
  apply (proj1 (proj2 (label_priority 2 feats (1 # 2) (-(1 # 2)) 1 1 (-1) 0
                         ltac:(lia) eq_refl eq_refl eq_refl))).
  - intros [H|H]; vm_compute in H; discriminate.
  - reflexivity.
Defined.


Lemma majority_label_wins_witness :
  let cl : list (list Z) := [[2]; [2]; [0]] in
  (0 < 1)%nat
  /\ (length cl < 2 * count_of 2 (label_row 0 cl))%nat
  /\ mode_axis1 1 cl !! 0%nat = Some (Some 2).
Proof.
  intros cl. split; [lia|]. split; [vm_compute; lia|].
  apply (majority_label_wins 1 0 cl 2); [lia|vm_compute; lia].
Defined.

Lemma good_in_half_of_chunks_witness :
  let cl : list (list Z) := [[0]; [1]] in
  (0 < 1)%nat
  /\ cl <> []
  /\ Forall (fun z => 0 <= z) (label_row 0 cl)
  /\ (length cl <= 2 * count_of 0 (label_row 0 cl))%nat
  /\ mode_axis1 1 cl !! 0%nat = Some (Some 0).
Proof.
  intros cl.
  assert (Hpos : Forall (fun z => 0 <= z) (label_row 0 cl))
    by (cbn; repeat (constructor; [lia|]); constructor).
  split; [lia|]. split; [discriminate|]. split; [exact Hpos|].
  split; [vm_compute; lia|].
  apply (good_in_half_of_chunks 1 0 cl);
    [lia | discriminate | exact Hpos | vm_compute; lia].
Defined.

Lemma aggregate_result_consistent_witness :
  let rec := {| get_sampling_frequency := 30000;
                get_num_channels := 3;
                get_num_segments := 1;
                get_channel_ids := ["ch0"; "ch1"; "ch2"]%string |} in
  aggregate rec [[2; 0; 0]] []
  = (Ok ([0%nat], ["ch0"%string], [Some 2; Some 0; Some 0]), [EvWarn warning_text])
  /\ length [Some 2; Some 0; Some 0] = get_num_channels rec
  /\ StronglySorted lt [0%nat].
Proof.
  intros rec.
  assert (Hrun : aggregate rec [[2; 0; 0]] []
                 = (Ok ([0%nat], ["ch0"%string], [Some 2; Some 0; Some 0]),
                    [EvWarn warning_text])) by reflexivity.
  split; [exact Hrun|].
  destruct (aggregate_result_consistent rec [[2; 0; 0]] [] _ _ _ _ Hrun)
    as [Hlen [Hsorted _]].
  now split.
Defined.

Lemma classifier_shapes_witness :
  let welch := fun (_ : list (list Q)) (fs : Q) => ([fs], [[1; 0; 0]]%Q) in
  let highpass := fun (_ : Q) (m : list (list Q)) => m in
  let raw := [[1; 1; 1]; [-1; -1; -1]]%Q in
  exists labels feats,
    detect_bad_channels_ibl welch highpass (fun q => q) raw 30000 (1 # 2)
      (-(1 # 2), 1)%Q false
    = Ok (labels, feats)
    /\ length labels = 3%nat
    /\ Forall (fun z => 0 <= z <= 3) labels.
Proof.
  intros welch highpass raw.
  destruct (detect_bad_channels_ibl welch highpass (fun q => q) raw 30000 (1 # 2)
              (-(1 # 2), 1)%Q false) as [[labels feats]|e] eqn:Hrun;
    [|vm_compute in Hrun; discriminate].
  exists labels, feats. split; [reflexivity|].
  destruct (classifier_shapes welch highpass (fun q => q) raw 30000 (1 # 2)
              (-(1 # 2), 1)%Q false labels feats Hrun) as [Hlen [Hrange _]].
  split; [exact Hlen|exact Hrange].
Defined.

Lemma detect_success_trace_witness :
  let rec := {| get_sampling_frequency := 30000;
                get_num_channels := 3;
                get_num_segments := 1;
                get_channel_ids := ["ch0"; "ch1"; "ch2"]%string |} in
  let welch := fun (_ : list (list Q)) (fs : Q) => ([fs], [[1; 0; 0]]%Q) in
  let highpass := fun (_ : Q) (m : list (list Q)) => m in
  let sampler := fun (_ : recording) (_ : gmap string pyval) =>
                   [[[1; 1; 1]; [-1; -1; -1]]%Q] in
  let user : gmap string pyval := {[ "num_chunks_per_segment"%string := PyInt 1 ]} in
  exists bad_inds bad_ids flags tr',
    detect_bad_channels welch highpass (fun q => q) sampler rec (Some (2 # 100))
      (-(1 # 2), 1)%Q (Some user) []
    = (Ok (bad_inds, bad_ids, flags), tr')
    /\ length flags = 3%nat.
Proof.
  intros rec welch highpass sampler user.
  destruct (detect_bad_channels welch highpass (fun q => q) sampler rec (Some (2 # 100))
              (-(1 # 2), 1)%Q (Some user) [])
    as [[[[bad_inds bad_ids] flags]|e] tr'] eqn:Hrun;
    [|vm_compute in Hrun; discriminate].
  exists bad_inds, bad_ids, flags, tr'. split; [reflexivity|].
  destruct (detect_success_trace welch highpass (fun q => q) sampler rec _ _ _ _ _ _ _ _
              Hrun) as [thr [u [kw [flag [_ [_ [_ [_ [Hlen _]]]]]]]]].
  exact Hlen.
Defined.

Lemma detect_failure_trace_witness :
  let rec := {| get_sampling_frequency := 30000;
                get_num_channels := 3;
                get_num_segments := 1;
                get_channel_ids := ["ch0"; "ch1"; "ch2"]%string |} in
  let welch := fun (_ : list (list Q)) (fs : Q) => ([fs], [[1; 0; 0]]%Q) in
  let highpass := fun (_ : Q) (m : list (list Q)) => m in
  let sampler := fun (_ : recording) (_ : gmap string pyval) =>
                   [[[2; 1; -3]; [1; 2; 0]; [-3; -3; 3]]%Q] in
  let user : gmap string pyval := {[ "num_chunks_per_segment"%string := PyInt 1 ]} in
  exists tr',
    detect_bad_channels welch highpass (fun q => q) sampler rec (Some (2 # 100))
      (-(1 # 2), 1)%Q (Some user) []
    = (Err AssertionError, tr')
    /\ (tr' = []
        \/ exists kw k, (k <= length (sampler rec kw))%nat
                        /\ tr' = [] ++ EvSample kw :: map EvClassify (seq 0 k)).
Proof.
  intros rec welch highpass sampler user.
  destruct (detect_bad_channels welch highpass (fun q => q) sampler rec (Some (2 # 100))
              (-(1 # 2), 1)%Q (Some user) []) as [[out|e] tr'] eqn:Hrun;
    [vm_compute in Hrun; discriminate|].
  assert (e = AssertionError) as ->
    by (vm_compute in Hrun; injection Hrun as He _; now rewrite <- He).
  exists tr'. split; [reflexivity|].
  exact (detect_failure_trace welch highpass (fun q => q) sampler rec _ _ _ _ _ _ Hrun).
Defined.

Lemma detect_success_chunk_count_witness :
  let rec := {| get_sampling_frequency := 30000;
                get_num_channels := 3;
                get_num_segments := 1;
                get_channel_ids := ["ch0"; "ch1"; "ch2"]%string |} in
  let welch := fun (_ : list (list Q)) (fs : Q) => ([fs], [[1; 0; 0]]%Q) in
  let highpass := fun (_ : Q) (m : list (list Q)) => m in
  let sampler := fun (_ : recording) (_ : gmap string pyval) =>
                   [[[1; 1; 1]; [-1; -1; -1]]%Q] in
  let user : gmap string pyval := {[ "num_chunks_per_segment"%string := PyInt 1 ]} in
  exists out tr' kw per_segment,
    detect_bad_channels welch highpass (fun q => q) sampler rec (Some (2 # 100))
      (-(1 # 2), 1)%Q (Some user) []
    = (Ok out, tr')
    /\ (length (sampler rec kw) <= get_num_segments rec * per_segment)%nat.
Proof.
  intros rec welch highpass sampler user.
  destruct (detect_bad_channels welch highpass (fun q => q) sampler rec (Some (2 # 100))
              (-(1 # 2), 1)%Q (Some user) []) as [[out|e] tr'] eqn:Hrun;
    [|vm_compute in Hrun; discriminate].
  destruct (detect_success_chunk_count welch highpass (fun q => q) sampler rec _ _ _ _ _ _
              Hrun) as [kw [flag [v [per [_ [_ [_ Hbound]]]]]]].
  exists out, tr', kw, per. split; [reflexivity|exact Hbound].
Defined.

Lemma uniform_std_all_or_none_witness :
  let data := [[1; 1]; [-1; -1]]%Q in
  Forall (fun c => np_std (fun q => q) c == 1)%Q (columns data)
  /\ (1 < 5 * 1)%Q
  /\ keep_inds (fun q => q) data 5 = seq 0 (num_cols data).
Proof.
  intros data.
  assert (Hall : Forall (fun c => np_std (fun q => q) c == 1)%Q (columns data))
    by (cbv [columns num_cols data seq map length column nth];
        repeat (constructor; [vm_compute; reflexivity|]); constructor).
  split; [exact Hall|]. split; [reflexivity|].
  apply (proj1 (uniform_std_all_or_none (fun q => q) data 5 1 Hall)). reflexivity.
Defined.


